(** * music-video-maker: the timeline computed by [create_video_from_images]

    A shallow embedding of [app.py].  Durations are Python numbers; they are
    modelled as exact rationals ([Q]), so every statement below is about
    exact arithmetic.  Streamlit calls and MoviePy calls are effects: a run
    is a trace of events together with either a raised exception or a
    returned value. *)

From Stdlib Require Import String Ascii.
From Stdlib Require Import List Bool Arith ZArith QArith Qminmax Qround.
From Stdlib Require Import Lia Lqa Permutation Sorted.
Import ListNotations.

Set Implicit Arguments.
Set Warnings "-register-all".

(** ** Exceptions, messages and events *)

(** The subclasses of Python's [Exception] that the program can meet. *)
Inductive exn : Type :=
| ZeroDivisionError
| IndexError
| ValueError
| TypeError
| BackendError (msg : string).

(** The texts handed to Streamlit, one constructor per literal of the
    source, carrying the values interpolated into it. *)
Inductive message : Type :=
| MsgStarting                 (* line 23 *)
| MsgAudioLength (d : Q)      (* line 29 *)
| MsgAudioTooShort            (* line 37 *)
| MsgTooManyImages            (* line 44 *)
| MsgExposureTime (d : Q)     (* line 47 *)
| MsgEncoding                 (* line 80 *)
| MsgDone                     (* line 83 *)
| MsgRenderError (e : exn)    (* line 87 *)
| MsgMissingUploads.          (* line 139 *)

(** ** MoviePy clips

    Only the attributes the program sets or reads are kept: what a clip
    shows, when it starts and ends inside its parent, how long it lasts,
    and the effects attached to it. *)

Inductive effect : Type :=
| Crossfadein (d : Q)
| Fadein (d : Q) (color : list Z)
| Fadeout (d : Q) (color : list Z).

Record AudioClip : Type := mkAudio {
  audio_path : string;
  audio_duration : Q
}.

Inductive Source (clip : Type) : Type :=
| ImageFile (path : string)
| Layers (clips : list clip).
Arguments ImageFile {clip} path.
Arguments Layers {clip} clips.

Inductive VideoClip : Type := mkClip {
  clip_source : Source VideoClip;
  clip_start : Q;
  clip_duration : option Q;
  clip_end : option Q;
  clip_fps : option Z;
  clip_fx : list effect;
  clip_audio : option AudioClip
}.

Inductive event : Type :=
| St_info (m : message)
| St_write (m : message)
| St_error (m : message)
| St_success (m : message)
| St_header
| St_video (path : string)
| St_download_button (path : string)
| Fs_write (path : string) (data : list Byte.byte)
| Mp_AudioFileClip (path : string)
| Mp_ImageClip (path : string)
| Mp_CompositeVideoClip (layers : list VideoClip)
| Mp_concatenate_videoclips (clips : list VideoClip)
| Mp_write_videofile (clip : VideoClip) (path : string).

(** ** The effect monad: a trace, and an exception or a value *)

Definition M (A : Type) : Type := (list event * (exn + A))%type.

Definition ret {A} (a : A) : M A := ([], inr a).

Definition raise {A} (e : exn) : M A := ([], inl e).

Definition emit (ev : event) : M unit := ([ev], inr tt).

Definition bind {A B} (m : M A) (k : A -> M B) : M B :=
  match m with
  | (tr, inl e) => (tr, inl e)
  | (tr, inr a) => let (tr', r) := k a in (tr ++ tr', r)
  end.

(** [try: ... except Exception as e: ...] *)
Definition try_except {A} (body : M A) (handler : exn -> M A) : M A :=
  match body with
  | (tr, inl e) => let (tr', r) := handler e in (tr ++ tr', r)
  | (tr, inr a) => (tr, inr a)
  end.

Declare Scope monad_scope.
Delimit Scope monad_scope with monad.
Notation "x <- m ;; k" := (bind m (fun x => k))
  (at level 61, m at next level, right associativity) : monad_scope.
Notation "m ;; k" := (bind m (fun _ => k))
  (at level 61, right associativity) : monad_scope.
Local Open Scope monad_scope.

Definition trace {A} (m : M A) : list event := fst m.
Definition outcome {A} (m : M A) : exn + A := snd m.

(** [for x in l: s = body(s, x)] *)
Fixpoint for_each {A S} (body : S -> A -> M S) (l : list A) (s : S) : M S :=
  match l with
  | [] => ret s
  | x :: l' => s' <- body s x ;; for_each body l' s'
  end.

Definition enumerate {A} (l : list A) : list (nat * A) :=
  combine (seq 0 (length l)) l.

(** [l[i]], raising [IndexError] out of range. *)
Definition getitem {A} (l : list A) (i : nat) : M A :=
  match nth_error l i with
  | Some x => ret x
  | None => raise IndexError
  end.

Definition st_info (m : message) : M unit := emit (St_info m).
Definition st_write (m : message) : M unit := emit (St_write m).
Definition st_error (m : message) : M unit := emit (St_error m).
Definition st_success (m : message) : M unit := emit (St_success m).

(** ** The rendering backend

    What MoviePy, the file system and the random generator answer is not
    fixed by the program.  A backend says for each audio file whether it
    can be opened and how long it is, for each image file whether it can be
    read, for each encoding request whether it goes through, and which
    identifier and temporary directory name the output. *)
Record Backend : Type := mkBackend {
  probe_audio : string -> exn + Q;
  probe_image : string -> option exn;
  encode : VideoClip -> string -> option exn;
  uuid4 : string;
  gettempdir : string
}.

Local Open Scope Q_scope.

(** [mp.AudioFileClip(path)] *)
Definition AudioFileClip (B : Backend) (path : string) : M AudioClip :=
  emit (Mp_AudioFileClip path) ;;
  match probe_audio B path with
  | inl e => raise e
  | inr d => ret (mkAudio path d)
  end.

(** [mp.ImageClip(path, duration=d)]: the clip starts at 0; with a duration
    its end is known, without one ([duration=None]) it is not. *)
Definition ImageClip (B : Backend) (path : string) (duration : option Q)
  : M VideoClip :=
  emit (Mp_ImageClip path) ;;
  match probe_image B path with
  | Some e => raise e
  | None => ret (mkClip (ImageFile path) 0 duration duration None [] None)
  end.

Definition set_fps (c : VideoClip) (fps : Z) : VideoClip :=
  mkClip (clip_source c) (clip_start c) (clip_duration c) (clip_end c)
         (Some fps) (clip_fx c) (clip_audio c).

(** [clip.set_start(t)]: the end follows when the duration is known,
    otherwise the duration follows from a known end. *)
Definition set_start (c : VideoClip) (t : Q) : VideoClip :=
  match clip_duration c, clip_end c with
  | Some d, _ =>
      mkClip (clip_source c) t (Some d) (Some (t + d))
             (clip_fps c) (clip_fx c) (clip_audio c)
  | None, Some e =>
      mkClip (clip_source c) t (Some (e - t)) (Some e)
             (clip_fps c) (clip_fx c) (clip_audio c)
  | None, None =>
      mkClip (clip_source c) t None None
             (clip_fps c) (clip_fx c) (clip_audio c)
  end.

(** [clip.set_duration(t)]: the end becomes [start + t]. *)
Definition set_duration (c : VideoClip) (t : Q) : VideoClip :=
  mkClip (clip_source c) (clip_start c) (Some t) (Some (clip_start c + t))
         (clip_fps c) (clip_fx c) (clip_audio c).

Definition add_fx (c : VideoClip) (fx : effect) : VideoClip :=
  mkClip (clip_source c) (clip_start c) (clip_duration c) (clip_end c)
         (clip_fps c) (clip_fx c ++ [fx]) (clip_audio c).

Definition crossfadein (c : VideoClip) (d : Q) : VideoClip :=
  add_fx c (Crossfadein d).

Definition fadein (c : VideoClip) (d : Q) (initial_color : list Z)
  : VideoClip :=
  add_fx c (Fadein d initial_color).

Definition fadeout (c : VideoClip) (d : Q) (final_color : list Z)
  : VideoClip :=
  add_fx c (Fadeout d final_color).

Definition set_audio (c : VideoClip) (a : AudioClip) : VideoClip :=
  mkClip (clip_source c) (clip_start c) (clip_duration c) (clip_end c)
         (clip_fps c) (clip_fx c) (Some a).

(** [clip.is_playing(x)]: the clip is shown at time [x] of its parent
    from its start on and before its end. *)
Definition is_playing (c : VideoClip) (x : Q) : bool :=
  Qle_bool (clip_start c) x
  && match clip_end c with
     | Some e => negb (Qle_bool e x)
     | None => true
     end.

(** [None not in l], with the values when it holds. *)
Fixpoint all_known {A} (l : list (option A)) : option (list A) :=
  match l with
  | [] => Some []
  | None :: _ => None
  | Some x :: l' =>
      match all_known l' with
      | Some xs => Some (x :: xs)
      | None => None
      end
  end.

(** [max(l)] of a non-empty list. *)
Definition maximum {A} (mx : A -> A -> A) (l : list A) : option A :=
  match l with
  | [] => None
  | x :: l' => Some (fold_left mx l' x)
  end.

(** The largest frame rate among the clips that have one. *)
Definition max_fps (clips : list VideoClip) : option Z :=
  match all_known (filter (fun o => match o with
                                    | Some _ => true
                                    | None => false
                                    end)
                          (map clip_fps clips)) with
  | Some fs => maximum Z.max fs
  | None => None
  end.

(** [mp.CompositeVideoClip(layers)]: lasts until its last layer ends,
    when every layer has an end. *)
Definition CompositeVideoClip (layers : list VideoClip) : M VideoClip :=
  emit (Mp_CompositeVideoClip layers) ;;
  let duration :=
    match all_known (map clip_end layers) with
    | Some ends => maximum Qmax ends
    | None => None
    end in
  ret (mkClip (Layers layers) 0 duration duration (max_fps layers) [] None).

(** The running sum [tt[-1]] of [np.cumsum([0] + durations)]. *)
Definition Qsum (l : list Q) : Q := fold_left Qplus l 0.

(** Each clip placed where the clips before it end. *)
Fixpoint place (t : Q) (clips : list VideoClip) (durations : list Q)
  : list VideoClip :=
  match clips, durations with
  | c :: clips', d :: durations' =>
      set_start c t :: place (t + d) clips' durations'
  | _, _ => []
  end.

(** [mp.concatenate_videoclips(clips, method="compose")]: the clips are
    played one after the other; the result lasts the sum of their
    durations.  A clip without duration or an empty list is an error. *)
Definition concatenate_videoclips (clips : list VideoClip) : M VideoClip :=
  emit (Mp_concatenate_videoclips clips) ;;
  match all_known (map clip_duration clips) with
  | None => raise TypeError
  | Some durations =>
      match clips with
      | [] => raise ValueError
      | _ =>
          let total := Qsum durations in
          ret (mkClip (Layers (place 0 clips durations)) 0
                      (Some total) (Some total) (max_fps clips) [] None)
      end
  end.

(** [clip.write_videofile(path, codec="libx264", audio_codec="aac")] *)
Definition write_videofile (B : Backend) (c : VideoClip) (path : string)
  : M unit :=
  emit (Mp_write_videofile c path) ;;
  match encode B c path with
  | Some e => raise e
  | None => ret tt
  end.

(** [os.path.join(a, b)] on POSIX. *)
Definition starts_with_sep (s : string) : bool :=
  match s with
  | String c _ => Ascii.eqb c "/"%char
  | EmptyString => false
  end.

Fixpoint ends_with_sep (s : string) : bool :=
  match s with
  | EmptyString => false
  | String c EmptyString => Ascii.eqb c "/"%char
  | String _ s' => ends_with_sep s'
  end.

Definition os_path_join (a b : string) : string :=
  if starts_with_sep b then b
  else if orb (String.eqb a "") (ends_with_sep a) then (a ++ b)%string
  else (a ++ "/" ++ b)%string.

(** Python's true division of a number by an [int]. *)
Definition truediv (x : Q) (n : Z) : M Q :=
  if (n =? 0)%Z then raise ZeroDivisionError else ret (x / inject_Z n).

(** ** [create_video_from_images] *)

(** Lines 34, 35 and 41. *)
Definition total_transition_time (num_images : Z) (transition_duration : Q)
  : Q :=
  inject_Z (num_images - 1) * transition_duration.

Definition effective_video_duration
  (total_audio_duration fade_in_duration fade_out_duration : Q) : Q :=
  total_audio_duration - fade_in_duration - fade_out_duration.

Definition single_image_duration
  (effective total_transition : Q) (num_images : Z) : M Q :=
  truediv (effective - total_transition) num_images.

Section Program.

Variable B : Backend.

(** The body of the loop of lines 51 to 64, for the image at index [i]. *)
Definition add_clip (image_paths : list string) (num_images : Z)
  (single_image_duration transition_duration : Q)
  (clips : list VideoClip) (entry : nat * string) : M (list VideoClip) :=
  let (i, path) := entry in
  image_clip <- ImageClip B path (Some single_image_duration) ;;
  let image_clip := set_fps image_clip 24 in
  if (Z.of_nat i <? num_images - 1)%Z then
    next_path <- getitem image_paths (i + 1) ;;
    next_clip <- ImageClip B next_path None ;;
    dissolve_clip <-
      CompositeVideoClip
        [image_clip;
         crossfadein
           (set_duration (set_start next_clip single_image_duration)
                         transition_duration)
           transition_duration] ;;
    let dissolve_clip :=
      set_duration dissolve_clip
                   (single_image_duration + transition_duration) in
    ret (clips ++ [dissolve_clip])
  else
    ret (clips ++ [image_clip]).

Definition build_clips (image_paths : list string) (num_images : Z)
  (single_image_duration transition_duration : Q) : M (list VideoClip) :=
  for_each
    (add_clip image_paths num_images single_image_duration
              transition_duration)
    (enumerate image_paths) [].

(** The body of the [try] statement, lines 26 to 84. *)
Definition try_block
  (image_paths : list string) (audio_path : string)
  (transition_duration fade_in_duration fade_out_duration : Q)
  : M (option string) :=
  audio_clip <- AudioFileClip B audio_path ;;
  let total_audio_duration := audio_duration audio_clip in
  st_write (MsgAudioLength total_audio_duration) ;;
  let num_images := Z.of_nat (List.length image_paths) in
  let total_transition_time :=
    total_transition_time num_images transition_duration in
  let effective_video_duration :=
    effective_video_duration total_audio_duration
                             fade_in_duration fade_out_duration in
  if Qle_bool effective_video_duration 0 then
    st_error MsgAudioTooShort ;;
    ret None
  else
    single_image_duration <-
      single_image_duration effective_video_duration
                            total_transition_time num_images ;;
    if Qle_bool single_image_duration 0 then
      st_error MsgTooManyImages ;;
      ret None
    else
      st_write (MsgExposureTime single_image_duration) ;;
      clips <- build_clips image_paths num_images
                           single_image_duration transition_duration ;;
      final_video_clip <- concatenate_videoclips clips ;;
      let final_video_clip :=
        fadein final_video_clip fade_in_duration [0; 0; 0]%Z in
      let final_video_clip :=
        fadeout final_video_clip fade_out_duration [0; 0; 0]%Z in
      let final_video_clip := set_audio final_video_clip audio_clip in
      let output_filename := ("output_" ++ uuid4 B ++ ".mp4")%string in
      let output_path := os_path_join (gettempdir B) output_filename in
      st_write MsgEncoding ;;
      write_videofile B final_video_clip output_path ;;
      st_success MsgDone ;;
      ret (Some output_path).

Definition create_video_from_images
  (image_paths : list string) (audio_path : string)
  (transition_duration fade_in_duration fade_out_duration : Q)
  : M (option string) :=
  st_info MsgStarting ;;
  try_except
    (try_block image_paths audio_path
               transition_duration fade_in_duration fade_out_duration)
    (fun e =>
       st_error (MsgRenderError e) ;;
       ret None).

End Program.

(** ** Reading a run

    The function returns a path only; the clips it builds are seen in the
    trace, as the argument of the concatenation call. *)

Fixpoint clips_of_run (tr : list event) : option (list VideoClip) :=
  match tr with
  | [] => None
  | Mp_concatenate_videoclips clips :: _ => Some clips
  | _ :: tr' => clips_of_run tr'
  end.

(** The clip handed to the encoder. *)
Fixpoint encoded_clip (tr : list event) : option VideoClip :=
  match tr with
  | [] => None
  | Mp_write_videofile c _ :: _ => Some c
  | _ :: tr' => encoded_clip tr'
  end.

(** What the planning part of a run decided, read off its messages. *)
Inductive planner_outcome : Type :=
| AudioTooShort
| TooManyImages
| Planned (single_image_duration : Q).

Fixpoint planner_outcome_of (tr : list event) : option planner_outcome :=
  match tr with
  | [] => None
  | St_error MsgAudioTooShort :: _ => Some AudioTooShort
  | St_error MsgTooManyImages :: _ => Some TooManyImages
  | St_write (MsgExposureTime s) :: _ => Some (Planned s)
  | _ :: tr' => planner_outcome_of tr'
  end.

(** Calls that construct a video clip or render. *)
Definition is_render_event (ev : event) : bool :=
  match ev with
  | Mp_ImageClip _ | Mp_CompositeVideoClip _
  | Mp_concatenate_videoclips _ | Mp_write_videofile _ _ => true
  | _ => false
  end.

(** Calls that construct a clip inside the loop. *)
Definition is_construction (ev : event) : bool :=
  match ev with
  | Mp_ImageClip _ | Mp_CompositeVideoClip _ => true
  | _ => false
  end.

(** The image clips a built clip is made of: itself for a plain image
    clip, its layers for a composite. *)
Definition layers_of (c : VideoClip) : list VideoClip :=
  match clip_source c with
  | ImageFile _ => [c]
  | Layers ls => ls
  end.

Definition is_composite (c : VideoClip) : bool :=
  match clip_source c with
  | ImageFile _ => false
  | Layers _ => true
  end.

(** A layer that is cross-faded in is a transition segment; a layer shown
    as it is, an exposure segment. *)
Definition is_transition (c : VideoClip) : bool :=
  existsb (fun fx => match fx with Crossfadein _ => true | _ => false end)
          (clip_fx c).

Definition exposure_segments (clips : list VideoClip) : list VideoClip :=
  filter (fun c => negb (is_transition c)) (flat_map layers_of clips).

Definition transition_segments (clips : list VideoClip) : list VideoClip :=
  filter is_transition (flat_map layers_of clips).

Definition image_of (c : VideoClip) : option string :=
  match clip_source c with
  | ImageFile p => Some p
  | Layers _ => None
  end.


(** The clips the loop builds when every image can be read. *)
Definition exposure_clip (path : string) (s : Q) : VideoClip :=
  mkClip (ImageFile path) 0 (Some s) (Some s) (Some 24%Z) [] None.

Definition incoming_clip (path : string) (s t : Q) : VideoClip :=
  mkClip (ImageFile path) s (Some t) (Some (s + t)) None [Crossfadein t] None.

Definition dissolve_clip (path next : string) (s t : Q) : VideoClip :=
  mkClip (Layers [exposure_clip path s; incoming_clip next s t]) 0
         (Some (s + t)) (Some (0 + (s + t))) (Some 24%Z) [] None.

Fixpoint planned_clips (paths : list string) (s t : Q) : list VideoClip :=
  match paths with
  | [] => []
  | p :: rest =>
      match rest with
      | [] => exposure_clip p s
      | q :: _ => dissolve_clip p q s t
      end :: planned_clips rest s t
  end.

Fixpoint planned_events (paths : list string) (s t : Q) : list event :=
  match paths with
  | [] => []
  | p :: rest =>
      Mp_ImageClip p ::
      match rest with
      | [] => []
      | q :: _ =>
          [Mp_ImageClip q;
           Mp_CompositeVideoClip [exposure_clip p s; incoming_clip q s t]]
      end ++ planned_events rest s t
  end.

Definition readable (B : Backend) (path : string) : Prop :=
  probe_image B path = None.

(** Events of the loop: image clips and composites only. *)
Definition build_event (ev : event) : Prop :=
  match ev with
  | Mp_ImageClip _ | Mp_CompositeVideoClip _ => True
  | _ => False
  end.

Fixpoint planned_durations (paths : list string) (s t : Q) : list Q :=
  match paths with
  | [] => []
  | _ :: rest =>
      match rest with
      | [] => s
      | _ :: _ => s + t
      end :: planned_durations rest s t
  end.

(** The clip handed to the encoder when [clips] were built. *)
Definition final_clip (clips : list VideoClip) (durations : list Q)
  (fade_in_duration fade_out_duration : Q) (audio : AudioClip) : VideoClip :=
  set_audio
    (fadeout
       (fadein
          (mkClip (Layers (place 0 clips durations)) 0
                  (Some (Qsum durations)) (Some (Qsum durations))
                  (max_fps clips) [] None)
          fade_in_duration [0; 0; 0]%Z)
       fade_out_duration [0; 0; 0]%Z)
    audio.

Definition output_path (B : Backend) : string :=
  os_path_join (gettempdir B) ("output_" ++ uuid4 B ++ ".mp4")%string.

(** ** The button handler (lines 104 to 139) *)

Record UploadedFile : Type := mkUpload {
  name : string;
  getbuffer : list Byte.byte
}.

(** [list.sort()] on strings.  Python compares strings by code point,
    which on UTF-8 encoded text is the byte-wise order of [String.ltb];
    the sort is stable and uses [<] only.  It is modelled as the stable
    insertion sort: each element goes behind the elements not greater
    than it. *)
Fixpoint insort (x : string) (l : list string) : list string :=
  match l with
  | [] => [x]
  | y :: l' => if (x <? y)%string then x :: y :: l' else y :: insort x l'
  end.

Definition list_sort (l : list string) : list string :=
  fold_left (fun sorted x => insort x sorted) l [].

(** Lines 110 to 113 and 115 to 117: write an upload into the temporary
    directory and give its path. *)
Definition stage (tmpdir : string) (uploaded_file : UploadedFile)
  : M string :=
  let path := os_path_join tmpdir (name uploaded_file) in
  emit (Fs_write path (getbuffer uploaded_file)) ;;
  ret path.

(** Lines 125 to 137. *)
Definition present_video (video_path : option string) : M unit :=
  match video_path with
  | Some p =>
      if String.eqb p "" then ret tt
      else
        emit St_header ;;
        emit (St_video p) ;;
        emit (St_download_button p)
  | None => ret tt
  end.

Definition button_handler (B : Backend) (tmpdir : string)
  (uploaded_images : list UploadedFile) (uploaded_audio : option UploadedFile)
  : M unit :=
  match uploaded_images, uploaded_audio with
  | _ :: _, Some audio =>
      image_paths <-
        for_each (fun image_paths uploaded_file =>
                    path <- stage tmpdir uploaded_file ;;
                    ret (image_paths ++ [path]))
                 uploaded_images [] ;;
      audio_path <- stage tmpdir audio ;;
      let image_paths := list_sort image_paths in
      video_path <- create_video_from_images B image_paths audio_path 1 1 1 ;;
      present_video video_path
  | _, _ => st_error MsgMissingUploads
  end.

(** The directory part that [os.path.join] puts in front of a relative
    name. *)
Definition dir_prefix (tmpdir : string) : string :=
  if orb (String.eqb tmpdir "") (ends_with_sep tmpdir) then tmpdir
  else (tmpdir ++ "/")%string.

(** The order of strings that [list.sort()] establishes. *)
Definition string_le (x y : string) : Prop := (x <=? y)%string = true.

(** The paths of the staged images, in upload order, and the order in
    which the handler passes them on. *)
Definition staged_paths (tmpdir : string) (uploaded_images : list UploadedFile)
  : list string :=
  map (fun f => os_path_join tmpdir (name f)) uploaded_images.

Definition processing_order (tmpdir : string)
  (uploaded_images : list UploadedFile) : list string :=
  list_sort (staged_paths tmpdir uploaded_images).

Definition staging_events (tmpdir : string)
  (uploads : list UploadedFile) : list event :=
  map (fun f => Fs_write (os_path_join tmpdir (name f)) (getbuffer f)) uploads.

(** The events every run whose audio opens starts with. *)
Definition opening (audio_path : string) (a : Q) : list event :=
  [St_info MsgStarting; Mp_AudioFileClip audio_path;
   St_write (MsgAudioLength a)].

(** The seven ways a run can go. *)
Inductive run_shape (B : Backend) (image_paths : list string)
  (audio_path : string) : M (option string) -> Prop :=
| Shape_audio_error e :
    probe_audio B audio_path = inl e ->
    run_shape B image_paths audio_path
      ([St_info MsgStarting; Mp_AudioFileClip audio_path;
        St_error (MsgRenderError e)], inr None)
| Shape_audio_too_short a :
    probe_audio B audio_path = inr a ->
    run_shape B image_paths audio_path
      (opening audio_path a ++ [St_error MsgAudioTooShort], inr None)
| Shape_no_image a :
    probe_audio B audio_path = inr a ->
    image_paths = [] ->
    run_shape B image_paths audio_path
      (opening audio_path a ++ [St_error (MsgRenderError ZeroDivisionError)],
       inr None)
| Shape_too_many_images a :
    probe_audio B audio_path = inr a ->
    run_shape B image_paths audio_path
      (opening audio_path a ++ [St_error MsgTooManyImages], inr None)
| Shape_unreadable a s tr e p :
    probe_audio B audio_path = inr a ->
    Forall build_event tr ->
    In p image_paths -> probe_image B p = Some e ->
    run_shape B image_paths audio_path
      (opening audio_path a ++ St_write (MsgExposureTime s) :: tr
         ++ [St_error (MsgRenderError e)], inr None)
| Shape_encode_error a s tr clips c e :
    probe_audio B audio_path = inr a ->
    Forall build_event tr ->
    encode B c (output_path B) = Some e ->
    run_shape B image_paths audio_path
      (opening audio_path a ++ St_write (MsgExposureTime s) :: tr
         ++ [Mp_concatenate_videoclips clips; St_write MsgEncoding;
             Mp_write_videofile c (output_path B);
             St_error (MsgRenderError e)], inr None)
| Shape_success a s tr clips c :
    probe_audio B audio_path = inr a ->
    Forall build_event tr ->
    encode B c (output_path B) = None ->
    run_shape B image_paths audio_path
      (opening audio_path a ++ St_write (MsgExposureTime s) :: tr
         ++ [Mp_concatenate_videoclips clips; St_write MsgEncoding;
             Mp_write_videofile c (output_path B);
             St_success MsgDone], inr (Some (output_path B))).

(** A backend on which everything succeeds: a ten second track. *)
Definition demo_backend : Backend :=
  mkBackend (fun _ => inr 10) (fun _ => None) (fun _ _ => None)
            "0f8b" "/tmp".

(** ** Reading the file system and the backend calls off a trace *)

(** The content of the file at [path] after the writes of a trace:
    [open(path, "wb")] truncates, so it is the data of the last write. *)
Fixpoint file_content (tr : list event) (path : string)
  : option (list Byte.byte) :=
  match tr with
  | [] => None
  | Fs_write p data :: tr' =>
      match file_content tr' path with
      | Some later => Some later
      | None => if String.eqb p path then Some data else None
      end
  | _ :: tr' => file_content tr' path
  end.

(** The image files opened by a trace, in the order of the calls. *)
Fixpoint image_reads (tr : list event) : list string :=
  match tr with
  | [] => []
  | Mp_ImageClip p :: tr' => p :: image_reads tr'
  | _ :: tr' => image_reads tr'
  end.

(** The number of composites constructed by a trace. *)
Fixpoint composite_calls (tr : list event) : nat :=
  match tr with
  | [] => 0
  | Mp_CompositeVideoClip _ :: tr' => S (composite_calls tr')
  | _ :: tr' => composite_calls tr'
  end.

(** The images opened by the loop: the first once, every other one twice
    in a row, as the incoming image of a dissolve and as the image of its
    own clip. *)
Definition reads_of (paths : list string) : list string :=
  match paths with
  | [] => []
  | p :: rest => p :: flat_map (fun q => [q; q]) rest
  end.

(** Events of [create_video_from_images]: it writes no file and shows no
    player. *)
Definition run_event (ev : event) : Prop :=
  match ev with
  | St_header | St_video _ | St_download_button _ | Fs_write _ _ => False
  | _ => True
  end.

(** A backend on which the file [2.png] cannot be read. *)
Definition broken_image_backend : Backend :=
  mkBackend (fun _ => inr 10)
            (fun p => if String.eqb p "2.png"
                      then Some (BackendError "cannot identify image file")
                      else None)
            (fun _ _ => None) "0f8b" "/tmp".

(** The clip that [demo_backend] is asked to encode for two images. *)
Definition demo_final_clip : VideoClip :=
  final_clip (planned_clips ["1.png"; "2.png"]%string (7 # 2) 1)
             (planned_durations ["1.png"; "2.png"]%string (7 # 2) 1)
             1 1 (mkAudio "song.mp3" 10).

(** * Properties *)

(** ** The loop *)

Section Loop.

Variable B : Backend.
Variables s t : Q.

Lemma lt_last_index (pre : list string) (p : string) (rest : list string) :
  (Z.of_nat (List.length pre)
   <? Z.of_nat (List.length (pre ++ p :: rest)) - 1)%Z
  = match rest with [] => false | _ :: _ => true end.
Proof.
  rewrite length_app. cbn [List.length].
  destruct rest as [|q rest]; cbn [List.length].
  - apply Z.ltb_ge. lia.
  - apply Z.ltb_lt. lia.
Qed.

Lemma getitem_next (pre : list string) (p q : string) (rest : list string) :
  getitem (pre ++ p :: q :: rest) (List.length pre + 1) = ret q.
Proof.
  unfold getitem.
  replace (pre ++ p :: q :: rest) with ((pre ++ [p]) ++ q :: rest)
    by (rewrite <- app_assoc; reflexivity).
  rewrite nth_error_app2 by (rewrite length_app; cbn; lia).
  rewrite length_app. cbn [List.length].
  replace (List.length pre + 1 - (List.length pre + 1))%nat with 0%nat by lia.
  reflexivity.
Qed.

(** One turn of the loop on a readable image that is not the last. *)
Lemma add_clip_dissolve pre p q rest acc :
  readable B p -> readable B q ->
  add_clip B (pre ++ p :: q :: rest)
           (Z.of_nat (List.length (pre ++ p :: q :: rest))) s t acc
           (List.length pre, p)
  = ([Mp_ImageClip p; Mp_ImageClip q;
      Mp_CompositeVideoClip [exposure_clip p s; incoming_clip q s t]],
     inr (acc ++ [dissolve_clip p q s t])).
Proof.
  unfold readable. intros Hp Hq.
  unfold add_clip. rewrite lt_last_index, getitem_next.
  unfold ImageClip. rewrite Hp. cbn [emit bind ret app].
  rewrite Hq. reflexivity.
Qed.

(** One turn of the loop on a readable last image. *)
Lemma add_clip_last pre p acc :
  readable B p ->
  add_clip B (pre ++ [p]) (Z.of_nat (List.length (pre ++ [p]))) s t acc
           (List.length pre, p)
  = ([Mp_ImageClip p], inr (acc ++ [exposure_clip p s])).
Proof.
  unfold readable. intros Hp.
  unfold add_clip. rewrite lt_last_index.
  unfold ImageClip. rewrite Hp. reflexivity.
Qed.

Lemma loop_readable rest : forall pre acc,
  Forall (readable B) rest ->
  for_each (add_clip B (pre ++ rest)
                     (Z.of_nat (List.length (pre ++ rest))) s t)
           (combine (seq (List.length pre) (List.length rest)) rest) acc
  = (planned_events rest s t, inr (acc ++ planned_clips rest s t)).
Proof.
  induction rest as [|p rest IH]; intros pre acc Hr.
  - cbn [List.length seq combine for_each planned_events planned_clips].
    unfold ret. rewrite app_nil_r. reflexivity.
  - inversion Hr as [|? ? Hp Hrest]; subst.
    cbn [List.length seq combine for_each].
    specialize (IH (pre ++ [p])).
    rewrite <- app_assoc, last_length in IH. cbn [app] in IH.
    destruct rest as [|q rest].
    + rewrite add_clip_last by assumption.
      reflexivity.
    + inversion Hrest; subst.
      rewrite add_clip_dissolve by assumption.
      unfold bind at 1. rewrite IH by assumption.
      cbn [planned_events planned_clips app].
      rewrite <- app_assoc. reflexivity.
Qed.

Lemma build_clips_readable (image_paths : list string) :
  Forall (readable B) image_paths ->
  build_clips B image_paths (Z.of_nat (List.length image_paths)) s t
  = (planned_events image_paths s t, inr (planned_clips image_paths s t)).
Proof.
  intros Hr. unfold build_clips, enumerate.
  exact (loop_readable nil nil Hr).
Qed.

End Loop.

Lemma build_events_no_clips tr :
  Forall build_event tr -> clips_of_run tr = None /\ encoded_clip tr = None.
Proof.
  induction 1 as [|ev tr Hev _ IH]; [split; reflexivity|].
  destruct ev; cbn in Hev; try contradiction; exact IH.
Qed.

Lemma clips_of_run_app tr1 tr2 :
  clips_of_run (tr1 ++ tr2)
  = match clips_of_run tr1 with
    | Some clips => Some clips
    | None => clips_of_run tr2
    end.
Proof.
  induction tr1 as [|ev tr1 IH]; [reflexivity|].
  destruct ev; cbn; auto.
Qed.

Lemma encoded_clip_app tr1 tr2 :
  encoded_clip (tr1 ++ tr2)
  = match encoded_clip tr1 with
    | Some c => Some c
    | None => encoded_clip tr2
    end.
Proof.
  induction tr1 as [|ev tr1 IH]; [reflexivity|].
  destruct ev; cbn; auto.
Qed.

Lemma planned_events_build paths s t :
  Forall build_event (planned_events paths s t).
Proof.
  induction paths as [|p rest IH]; cbn [planned_events]; [constructor|].
  constructor; [exact I|].
  apply Forall_app. split; [|exact IH].
  destruct rest; repeat constructor.
Qed.

Section LoopFailure.

Variable B : Backend.
Variables s t : Q.

(** Whatever the backend answers, the loop either reads every image and
    builds the planned clips, or stops on the first image that cannot be
    read, having issued construction calls only. *)
Lemma loop_cases rest : forall pre acc,
  Forall (readable B) rest \/
  exists tr e,
    for_each (add_clip B (pre ++ rest)
                       (Z.of_nat (List.length (pre ++ rest))) s t)
             (combine (seq (List.length pre) (List.length rest)) rest) acc
    = (tr, inl e) /\ Forall build_event tr
    /\ exists p, In p rest /\ probe_image B p = Some e.
Proof.
  induction rest as [|p rest IH]; intros pre acc; [left; constructor|].
  cbn [List.length seq combine for_each].
  destruct (probe_image B p) as [e|] eqn:Hp.
  - right. exists [Mp_ImageClip p], e. split; [|split].
    + unfold add_clip, ImageClip. rewrite Hp. reflexivity.
    + repeat constructor.
    + exists p. split; [left; reflexivity | exact Hp].
  - destruct rest as [|q rest].
    + left. repeat constructor. exact Hp.
    + destruct (probe_image B q) as [e|] eqn:Hq.
      * right. exists [Mp_ImageClip p; Mp_ImageClip q], e. split; [|split].
        -- unfold add_clip. rewrite lt_last_index, getitem_next.
           unfold ImageClip. rewrite Hp. cbn [emit bind ret app].
           rewrite Hq. reflexivity.
        -- repeat constructor.
        -- exists q. split; [right; left; reflexivity | exact Hq].
      * rewrite add_clip_dissolve by assumption.
        specialize (IH (pre ++ [p]) (acc ++ [dissolve_clip p q s t])).
        rewrite <- app_assoc, last_length in IH. cbn [app] in IH.
        destruct IH as [Hr | (tr & e & Hrun & Htr & p' & Hin & Hp')].
        -- left. constructor; assumption.
        -- right.
           exists ([Mp_ImageClip p; Mp_ImageClip q;
                    Mp_CompositeVideoClip
                      [exposure_clip p s; incoming_clip q s t]] ++ tr), e.
           split; [|split].
           ++ unfold bind at 1. rewrite Hrun. reflexivity.
           ++ apply Forall_app. split; [repeat constructor | exact Htr].
           ++ exists p'. split; [right; exact Hin | exact Hp'].
Qed.

Lemma build_clips_cases (image_paths : list string) :
  Forall (readable B) image_paths \/
  exists tr e,
    build_clips B image_paths (Z.of_nat (List.length image_paths)) s t
    = (tr, inl e) /\ Forall build_event tr
    /\ exists p, In p image_paths /\ probe_image B p = Some e.
Proof.
  exact (loop_cases image_paths nil nil).
Qed.

End LoopFailure.

(** ** The planned clips *)

Lemma planned_clips_length paths s t :
  List.length (planned_clips paths s t) = List.length paths.
Proof.
  induction paths as [|p rest IH]; cbn [planned_clips List.length]; congruence.
Qed.

Lemma planned_clips_durations paths s t :
  map clip_duration (planned_clips paths s t)
  = map Some (planned_durations paths s t).
Proof.
  induction paths as [|p rest IH]; [reflexivity|].
  cbn [planned_clips planned_durations map]. rewrite IH.
  destruct rest; reflexivity.
Qed.

Lemma all_known_map_Some {A} (l : list A) : all_known (map Some l) = Some l.
Proof.
  induction l as [|x l IH]; [reflexivity|].
  cbn [map all_known]. rewrite IH. reflexivity.
Qed.

Lemma exposure_segments_planned paths s t :
  exposure_segments (planned_clips paths s t)
  = map (fun p => exposure_clip p s) paths.
Proof.
  unfold exposure_segments.
  induction paths as [|p rest IH]; [reflexivity|].
  cbn [planned_clips flat_map map]. rewrite filter_app, IH.
  destruct rest; reflexivity.
Qed.

Lemma transition_segments_planned paths s t :
  transition_segments (planned_clips paths s t)
  = map (fun q => incoming_clip q s t) (tl paths).
Proof.
  unfold transition_segments.
  induction paths as [|p rest IH]; [reflexivity|].
  cbn [planned_clips flat_map tl]. rewrite filter_app, IH.
  destruct rest; reflexivity.
Qed.

Lemma nth_planned_dissolve paths s t : forall i p q,
  nth_error paths i = Some p -> nth_error paths (S i) = Some q ->
  nth_error (planned_clips paths s t) i = Some (dissolve_clip p q s t).
Proof.
  induction paths as [|p0 rest IH]; intros i p q Hp Hq.
  - destruct i; discriminate.
  - destruct i as [|i].
    + cbn in Hp, Hq. injection Hp as ->.
      destruct rest as [|q0 rest]; [discriminate|].
      cbn in Hq. injection Hq as ->. reflexivity.
    + cbn [planned_clips nth_error]. apply IH; assumption.
Qed.

Lemma nth_planned_last paths s t : forall i p,
  nth_error paths i = Some p -> S i = List.length paths ->
  nth_error (planned_clips paths s t) i = Some (exposure_clip p s).
Proof.
  induction paths as [|p0 rest IH]; intros i p Hp Hi.
  - destruct i; discriminate.
  - destruct i as [|i].
    + cbn in Hp. injection Hp as ->.
      destruct rest; [reflexivity | discriminate].
    + cbn [planned_clips nth_error]. apply IH; [exact Hp|].
      cbn in Hi. lia.
Qed.

(** *** Sums of durations *)

Lemma fold_left_Qplus_acc (l : list Q) : forall a,
  fold_left Qplus l a == a + fold_left Qplus l 0.
Proof.
  induction l as [|x l IH]; intros a; cbn [fold_left].
  - ring.
  - rewrite (IH (a + x)), (IH (0 + x)). ring.
Qed.

Lemma Qsum_cons (x : Q) (l : list Q) : Qsum (x :: l) == x + Qsum l.
Proof.
  unfold Qsum. cbn [fold_left].
  rewrite fold_left_Qplus_acc. ring.
Qed.

Lemma inject_Z_succ (n : nat) :
  inject_Z (Z.of_nat (S n)) == inject_Z (Z.of_nat n) + 1.
Proof.
  rewrite Nat2Z.inj_succ. unfold Z.succ. rewrite inject_Z_plus. reflexivity.
Qed.

(** The planned clips last, together, one exposure per image and one
    transition per pair of neighbours. *)
Lemma Qsum_planned_durations paths s t :
  paths <> [] ->
  Qsum (planned_durations paths s t)
  == inject_Z (Z.of_nat (List.length paths)) * s
     + inject_Z (Z.of_nat (List.length paths) - 1) * t.
Proof.
  induction paths as [|p rest IH]; [congruence|]. intros _.
  cbn [planned_durations]. rewrite Qsum_cons.
  destruct rest as [|q rest].
  - cbn. ring.
  - rewrite IH by discriminate.
    cbn [List.length].
    replace (Z.of_nat (S (S (List.length rest))) - 1)%Z
      with (Z.of_nat (S (List.length rest))) by lia.
    replace (Z.of_nat (S (List.length rest)) - 1)%Z
      with (Z.of_nat (List.length rest)) by lia.
    rewrite !inject_Z_succ. ring.
Qed.



(** ** The runs of [create_video_from_images] *)

Lemma concatenate_planned paths s t :
  paths <> [] ->
  concatenate_videoclips (planned_clips paths s t)
  = ([Mp_concatenate_videoclips (planned_clips paths s t)],
     inr (mkClip (Layers (place 0 (planned_clips paths s t)
                                (planned_durations paths s t)))
                 0 (Some (Qsum (planned_durations paths s t)))
                 (Some (Qsum (planned_durations paths s t)))
                 (max_fps (planned_clips paths s t)) [] None)).
Proof.
  intros Hne. unfold concatenate_videoclips.
  rewrite planned_clips_durations, all_known_map_Some.
  destruct paths as [|p rest]; [congruence|]. reflexivity.
Qed.

Lemma Qle_bool_false (x y : Q) : Qle_bool x y = false <-> y < x.
Proof.
  split.
  - intros H. apply Qnot_le_lt. intros Hle.
    apply Qle_bool_iff in Hle. congruence.
  - intros H. destruct (Qle_bool x y) eqn:E; [|reflexivity].
    apply Qle_bool_iff in E. exfalso. exact (Qlt_not_le _ _ H E).
Qed.

Lemma readable_dec (B : Backend) (paths : list string) :
  {Forall (readable B) paths} + {~ Forall (readable B) paths}.
Proof.
  apply Forall_dec. intros p. unfold readable.
  destruct (probe_image B p); [right; discriminate | left; reflexivity].
Qed.

Lemma run_audio_error B image_paths audio_path t fi fo e :
  probe_audio B audio_path = inl e ->
  create_video_from_images B image_paths audio_path t fi fo
  = ([St_info MsgStarting; Mp_AudioFileClip audio_path;
      St_error (MsgRenderError e)], inr None).
Proof.
  intros H. unfold create_video_from_images, try_block, AudioFileClip.
  rewrite H. reflexivity.
Qed.

Section Runs.

Variable B : Backend.
Variable image_paths : list string.
Variable audio_path : string.
Variables transition_duration fade_in_duration fade_out_duration : Q.
Variable a : Q.
Hypothesis Haudio : probe_audio B audio_path = inr a.

Let n : Z := Z.of_nat (List.length image_paths).
Let eff : Q := effective_video_duration a fade_in_duration fade_out_duration.
Let ttt : Q := total_transition_time n transition_duration.
Let s : Q := (eff - ttt) / inject_Z n.
Let run : M (option string) :=
  create_video_from_images B image_paths audio_path transition_duration
                           fade_in_duration fade_out_duration.

Ltac start_run :=
  unfold run, create_video_from_images, try_block, AudioFileClip;
  rewrite Haudio;
  cbn [st_info st_write st_error st_success emit bind ret raise try_except
       app audio_duration];
  fold n; fold eff; fold ttt.

Lemma run_audio_too_short :
  Qle_bool eff 0 = true ->
  run = (opening audio_path a ++ [St_error MsgAudioTooShort], inr None).
Proof.
  intros H. start_run. rewrite H. reflexivity.
Qed.

Lemma run_no_image :
  Qle_bool eff 0 = false -> image_paths = [] ->
  run = (opening audio_path a
           ++ [St_error (MsgRenderError ZeroDivisionError)], inr None).
Proof.
  intros H Hnil. start_run. rewrite H.
  unfold single_image_duration, truediv.
  replace (n =? 0)%Z with true
    by (unfold n; rewrite Hnil; reflexivity).
  reflexivity.
Qed.

Lemma n_nonzero : image_paths <> [] -> (n =? 0)%Z = false.
Proof.
  intros H. apply Z.eqb_neq. unfold n.
  destruct image_paths; [congruence | cbn [List.length]; lia].
Qed.

Lemma run_too_many_images :
  Qle_bool eff 0 = false -> image_paths <> [] -> Qle_bool s 0 = true ->
  run = (opening audio_path a ++ [St_error MsgTooManyImages], inr None).
Proof.
  intros H Hne Hs. start_run. rewrite H.
  unfold single_image_duration, truediv. rewrite (n_nonzero Hne).
  cbn [bind ret app]. fold s. rewrite Hs. reflexivity.
Qed.

Lemma run_unreadable :
  Qle_bool eff 0 = false -> image_paths <> [] -> Qle_bool s 0 = false ->
  ~ Forall (readable B) image_paths ->
  exists tr e,
    run = (opening audio_path a ++ St_write (MsgExposureTime s) :: tr
                   ++ [St_error (MsgRenderError e)], inr None)
    /\ Forall build_event tr
    /\ exists p, In p image_paths /\ probe_image B p = Some e.
Proof.
  intros H Hne Hs Hr.
  destruct (build_clips_cases B s transition_duration image_paths)
    as [Hall | (tr & e & Hb & Htr & Hp)]; [contradiction|].
  exists tr, e. split; [|split; assumption].
  start_run. rewrite H.
  unfold single_image_duration, truediv. rewrite (n_nonzero Hne).
  cbn [bind ret app]. fold s. rewrite Hs.
  fold n in Hb. rewrite Hb. reflexivity.
Qed.

Let clips : list VideoClip := planned_clips image_paths s transition_duration.
Let final : VideoClip :=
  final_clip clips (planned_durations image_paths s transition_duration)
             fade_in_duration fade_out_duration (mkAudio audio_path a).

Lemma run_built :
  Qle_bool eff 0 = false -> image_paths <> [] -> Qle_bool s 0 = false ->
  Forall (readable B) image_paths ->
  run = (opening audio_path a ++ St_write (MsgExposureTime s)
                 :: planned_events image_paths s transition_duration
                 ++ Mp_concatenate_videoclips clips
                 :: St_write MsgEncoding
                 :: Mp_write_videofile final (output_path B)
                 :: match encode B final (output_path B) with
                    | Some e => [St_error (MsgRenderError e)]
                    | None => [St_success MsgDone]
                    end,
         inr match encode B final (output_path B) with
             | Some _ => None
             | None => Some (output_path B)
             end).
Proof.
  intros H Hne Hs Hr. start_run. rewrite H.
  unfold single_image_duration, truediv. rewrite (n_nonzero Hne).
  cbn [bind ret app]. fold s. rewrite Hs.
  unfold n. rewrite (build_clips_readable s transition_duration Hr).
  fold n. cbn [bind].
  rewrite (concatenate_planned s transition_duration Hne).
  unfold write_videofile. cbn [emit bind ret raise app].
  fold (output_path B). fold clips.
  change (set_audio _ _) with final.
  destruct (encode B final (output_path B));
    cbn [emit bind ret raise try_except app];
    rewrite <- ?app_assoc; reflexivity.
Qed.

Lemma n_zero : (n =? 0)%Z = true -> image_paths = [].
Proof.
  intros H. apply Z.eqb_eq in H. unfold n in H.
  apply length_zero_iff_nil. lia.
Qed.

Lemma n_nonzero_inv : (n =? 0)%Z = false -> image_paths <> [].
Proof.
  intros H Hnil. unfold n in H. rewrite Hnil in H. discriminate.
Qed.

(** The planning decision of every run whose audio could be opened. *)
Lemma planner_outcome_run :
  planner_outcome_of (trace run)
  = if Qle_bool eff 0 then Some AudioTooShort
    else if (n =? 0)%Z then None
    else if Qle_bool s 0 then Some TooManyImages
    else Some (Planned s).
Proof.
  destruct (Qle_bool eff 0) eqn:He.
  - rewrite (run_audio_too_short He). reflexivity.
  - destruct (n =? 0)%Z eqn:Hn.
    + rewrite (run_no_image He (n_zero Hn)). reflexivity.
    + pose proof (n_nonzero_inv Hn) as Hne.
      destruct (Qle_bool s 0) eqn:Hs.
      * rewrite (run_too_many_images He Hne Hs). reflexivity.
      * destruct (readable_dec B image_paths) as [Hr | Hr].
        -- rewrite (run_built He Hne Hs Hr). reflexivity.
        -- destruct (run_unreadable He Hne Hs Hr) as (tr & e & -> & _).
           reflexivity.
Qed.

(** A run that returns a path went through every stage. *)
Lemma run_success_inv out :
  outcome run = inr (Some out) ->
  Qle_bool eff 0 = false /\ image_paths <> [] /\ Qle_bool s 0 = false
  /\ Forall (readable B) image_paths
  /\ encode B final (output_path B) = None /\ out = output_path B.
Proof.
  intros Hout.
  destruct (Qle_bool eff 0) eqn:He.
  { rewrite (run_audio_too_short He) in Hout. discriminate. }
  destruct (n =? 0)%Z eqn:Hn.
  { rewrite (run_no_image He (n_zero Hn)) in Hout. discriminate. }
  pose proof (n_nonzero_inv Hn) as Hne.
  destruct (Qle_bool s 0) eqn:Hs.
  { rewrite (run_too_many_images He Hne Hs) in Hout. discriminate. }
  destruct (readable_dec B image_paths) as [Hr | Hr].
  - rewrite (run_built He Hne Hs Hr) in Hout. cbn [outcome snd] in Hout.
    destruct (encode B final (output_path B)); [discriminate|].
    injection Hout as <-. repeat split; assumption || reflexivity.
  - destruct (run_unreadable He Hne Hs Hr) as (tr & e & Hrun & _).
    rewrite Hrun in Hout. discriminate.
Qed.

(** The clips of a run that reached the concatenation. *)
Lemma run_clips :
  Qle_bool eff 0 = false -> image_paths <> [] -> Qle_bool s 0 = false ->
  Forall (readable B) image_paths ->
  clips_of_run (trace run) = Some clips
  /\ encoded_clip (trace run) = Some final.
Proof.
  intros He Hne Hs Hr. rewrite (run_built He Hne Hs Hr).
  cbn [trace fst opening app clips_of_run encoded_clip].
  rewrite clips_of_run_app, encoded_clip_app.
  destruct (build_events_no_clips
              (planned_events_build image_paths s transition_duration))
    as [-> ->].
  split; reflexivity.
Qed.

End Runs.

(** ** The planner's arithmetic *)


Lemma inject_Z_nonzero (n : Z) : n <> 0%Z -> ~ inject_Z n == 0.
Proof.
  intros Hn H. apply Hn.
  unfold Qeq in H. cbn in H. lia.
Qed.

(** The exposures and the transitions fill the effective duration. *)
Lemma budget_spent (eff t : Q) (n : Z) :
  n <> 0%Z ->
  inject_Z n * ((eff - total_transition_time n t) / inject_Z n)
  + inject_Z (n - 1) * t == eff.
Proof.
  intros Hn. rewrite Qmult_div_r by (apply inject_Z_nonzero; exact Hn).
  unfold total_transition_time. ring.
Qed.

Lemma length_tl {A} (l : list A) :
  List.length (tl l) = (List.length l - 1)%nat.
Proof. destruct l; cbn; lia. Qed.


(** ** Claims about the plan *)



(** C6 (segment counts).  When the planner succeeds on [N >= 1] images,
    the run builds [N] clips: the first [N - 1] are dissolve composites,
    the last is a plain image clip; they hold [N] exposure segments and
    [N - 1] transition segments (none for a single image). *)
Theorem segment_counts
  B image_paths audio_path transition_duration fade_in_duration
  fade_out_duration (a s : Q) :
  let N := List.length image_paths in
  let run := create_video_from_images B image_paths audio_path
               transition_duration fade_in_duration fade_out_duration in
  probe_audio B audio_path = inr a ->
  (1 <= N)%nat ->
  planner_outcome_of (trace run) = Some (Planned s) ->
  Forall (readable B) image_paths ->
  exists clips,
    clips_of_run (trace run) = Some clips
    /\ List.length clips = N
    /\ List.length (exposure_segments clips) = N
    /\ List.length (transition_segments clips) = Nat.max 0 (N - 1)
    /\ forall i c, nth_error clips i = Some c ->
         is_composite c = (i <? N - 1)%nat.
Proof.
  intros N run Ha HN Hplan Hr. subst N run.
  rewrite (@planner_outcome_run B image_paths audio_path transition_duration
             fade_in_duration fade_out_duration a Ha) in Hplan.
  destruct (Qle_bool _ 0) eqn:He in Hplan; [discriminate|].
  destruct (_ =? 0)%Z eqn:Hn in Hplan; [discriminate|].
  destruct (Qle_bool _ 0) eqn:Hs in Hplan; [discriminate|].
  injection Hplan as <-.
  assert (Hne : image_paths <> []).
  { intros E. rewrite E in HN. cbn in HN. lia. }
  destruct (@run_clips B image_paths audio_path transition_duration
                       fade_in_duration fade_out_duration a Ha He Hne Hs Hr)
    as [Hclips _].
  eexists. split; [exact Hclips|].
  rewrite exposure_segments_planned, transition_segments_planned.
  rewrite !length_map, planned_clips_length, length_tl.
  repeat split; try reflexivity.
  clear. set (s := _ / _). clearbody s.
  induction image_paths as [|p rest IH]; intros i c Hi.
  - destruct i; discriminate.
  - destruct i as [|i].
    + cbn in Hi. injection Hi as <-. destruct rest; reflexivity.
    + cbn [planned_clips nth_error] in Hi. rewrite (IH _ _ Hi).
      destruct rest as [|q rest]; [destruct i; discriminate|].
      cbn [List.length]. 
      replace (S (S (List.length rest)) - 1)%nat
        with (S (S (List.length rest) - 1)) by lia.
      reflexivity.
Qed.

Lemma segment_counts_witness :
  exists clips,
    clips_of_run
      (trace (create_video_from_images demo_backend
                ["1.png"; "2.png"; "3.png"]%string "song.mp3" 1 1 1))
    = Some clips
    /\ List.length clips = 3%nat
    /\ List.length (exposure_segments clips) = 3%nat
    /\ List.length (transition_segments clips) = 2%nat
    /\ forall i c, nth_error clips i = Some c ->
         is_composite c = (i <? 2)%nat.
Proof.
  apply (@segment_counts demo_backend
           ["1.png"; "2.png"; "3.png"]%string "song.mp3" 1 1 1 10 (6 # 3)).
  - reflexivity.
  - cbn. lia.
  - reflexivity.
  - repeat constructor.
Defined.

(** C5 (single-image degeneracy).  With one image and an effective
    duration above zero the division is by one and returns the whole
    effective duration; the planner succeeds with it; the only clip
    construction of the run is the image clip of that image (no composite,
    no look-up of a next image); and when the image can be read the run
    builds one clip, which is one exposure segment of that length, and no
    transition segment. *)
Theorem single_image_degeneracy
  B (p : string) audio_path transition_duration fade_in_duration
  fade_out_duration (a : Q) :
  let run := create_video_from_images B [p] audio_path
               transition_duration fade_in_duration fade_out_duration in
  probe_audio B audio_path = inr a ->
  0 < a - fade_in_duration - fade_out_duration ->
  exists s,
    outcome (single_image_duration
               (effective_video_duration a fade_in_duration fade_out_duration)
               (total_transition_time 1 transition_duration) 1) = inr s
    /\ s == a - fade_in_duration - fade_out_duration
    /\ planner_outcome_of (trace run) = Some (Planned s)
    /\ filter is_construction (trace run) = [Mp_ImageClip p]
    /\ (readable B p ->
        exists c,
          clips_of_run (trace run) = Some [c]
          /\ exposure_segments [c] = [c]
          /\ transition_segments [c] = []
          /\ image_of c = Some p
          /\ clip_duration c = Some s).
Proof.
  intros run Ha Heff. subst run.
  set (eff := effective_video_duration a fade_in_duration fade_out_duration).
  set (s := (eff - total_transition_time 1 transition_duration) / inject_Z 1).
  assert (Hs : s == a - fade_in_duration - fade_out_duration).
  { unfold s, total_transition_time, eff, effective_video_duration.
    change (inject_Z (1 - 1)) with 0. change (inject_Z 1) with 1. field. }
  assert (He : Qle_bool eff 0 = false) by (apply Qle_bool_false; exact Heff).
  assert (Hs0 : Qle_bool s 0 = false).
  { apply Qle_bool_false. rewrite Hs. exact Heff. }
  assert (Hne : [p] <> []) by discriminate.
  exists s. split; [reflexivity|]. split; [exact Hs|]. split.
  { rewrite (@planner_outcome_run B [p] audio_path transition_duration
               fade_in_duration fade_out_duration a Ha).
    fold eff. rewrite He. cbn [List.length Z.of_nat Pos.of_succ_nat Z.eqb].
    fold s. rewrite Hs0. reflexivity. }
  destruct (probe_image B p) as [e|] eqn:Hp.
  - split.
    + unfold create_video_from_images, try_block, AudioFileClip.
      rewrite Ha.
      cbn [st_info st_write st_error st_success emit bind ret raise
           try_except app audio_duration List.length Z.of_nat
           Pos.of_succ_nat].
      fold eff. rewrite He. unfold single_image_duration, truediv.
      cbn [Z.eqb bind ret app]. fold s. rewrite Hs0.
      unfold build_clips, enumerate.
      cbn [List.length seq combine for_each].
      unfold add_clip, ImageClip. rewrite Hp. reflexivity.
    + unfold readable. congruence.
  - assert (Hr : Forall (readable B) [p]) by (repeat constructor; exact Hp).
    rewrite (@run_built B [p] audio_path transition_duration
               fade_in_duration fade_out_duration a Ha He Hne Hs0 Hr).
    fold eff. cbn [List.length Z.of_nat Pos.of_succ_nat]. fold s.
    split.
    + destruct (encode B _ _); reflexivity.
    + intros _. exists (exposure_clip p s).
      repeat split; reflexivity.
Qed.

Lemma single_image_degeneracy_witness :
  exists s,
    outcome (single_image_duration
               (effective_video_duration 10 1 1)
               (total_transition_time 1 1) 1) = inr s
    /\ s == 10 - 1 - 1
    /\ planner_outcome_of
         (trace (create_video_from_images demo_backend ["only.png"%string]
                   "song.mp3" 1 1 1)) = Some (Planned s)
    /\ filter is_construction
         (trace (create_video_from_images demo_backend ["only.png"%string]
                   "song.mp3" 1 1 1)) = [Mp_ImageClip "only.png"]
    /\ (readable demo_backend "only.png" ->
        exists c,
          clips_of_run
            (trace (create_video_from_images demo_backend
                      ["only.png"%string] "song.mp3" 1 1 1)) = Some [c]
          /\ exposure_segments [c] = [c]
          /\ transition_segments [c] = []
          /\ image_of c = Some "only.png"%string
          /\ clip_duration c = Some s).
Proof.
  apply (@single_image_degeneracy demo_backend "only.png" "song.mp3"
           1 1 1 10).
  - reflexivity.
  - reflexivity.
Defined.

Lemma success_audio B image_paths audio_path t fi fo out :
  outcome (create_video_from_images B image_paths audio_path t fi fo)
  = inr (Some out) ->
  exists a, probe_audio B audio_path = inr a.
Proof.
  intros H. destruct (probe_audio B audio_path) as [e|a] eqn:Ha.
  - rewrite (@run_audio_error B image_paths audio_path t fi fo e Ha) in H.
    discriminate.
  - exists a. reflexivity.
Qed.

Lemma nth_error_some {A} (l : list A) (i : nat) :
  (i < List.length l)%nat -> exists x, nth_error l i = Some x.
Proof.
  intros H. destruct (nth_error l i) eqn:E; [eexists; reflexivity|].
  apply nth_error_None in E. lia.
Qed.

(** The windows of the two layers of a dissolve composite touch and do
    not overlap: the current image stops at the instant the next starts. *)
Lemma dissolve_layers_disjoint p q s t (x : Q) :
  is_playing (exposure_clip p s) x && is_playing (incoming_clip q s t) x
  = false.
Proof.
  unfold is_playing. cbn [exposure_clip incoming_clip clip_start clip_end].
  destruct (Qle_bool 0 x), (Qle_bool s x), (Qle_bool (s + t) x);
    reflexivity.
Qed.

(** C7 (per-pair dissolve geometry).  In every successful run, for every
    [i < image_count - 1], clip [i] is a composite of image [i] and image
    [i + 1] that lasts exactly [single_image_duration +
    transition_duration]; the incoming image starts exactly
    [single_image_duration] after the start of the composite and lasts
    [transition_duration].  The clip of image [i] inside the composite
    ends at [single_image_duration]: at no instant are both layers
    playing, so the incoming image does not overlap the exposure of
    image [i]. *)
Theorem dissolve_geometry
  B image_paths audio_path transition_duration fade_in_duration
  fade_out_duration out (i : nat) :
  let run := create_video_from_images B image_paths audio_path
               transition_duration fade_in_duration fade_out_duration in
  outcome run = inr (Some out) ->
  (i + 1 < List.length image_paths)%nat ->
  exists s clips c cur next p q,
    planner_outcome_of (trace run) = Some (Planned s)
    /\ clips_of_run (trace run) = Some clips
    /\ nth_error image_paths i = Some p
    /\ nth_error image_paths (i + 1) = Some q
    /\ nth_error clips i = Some c
    /\ clip_duration c = Some (s + transition_duration)
    /\ layers_of c = [cur; next]
    /\ image_of cur = Some p
    /\ clip_start cur = 0
    /\ clip_end cur = Some s
    /\ is_transition cur = false
    /\ image_of next = Some q
    /\ clip_start next = s
    /\ clip_duration next = Some transition_duration
    /\ is_transition next = true
    /\ forall x, is_playing cur x && is_playing next x = false.
Proof.
  intros run Hout Hi. subst run.
  destruct (@success_audio _ _ _ _ _ _ _ Hout) as [a Ha].
  destruct (@run_success_inv B image_paths audio_path transition_duration
              fade_in_duration fade_out_duration a Ha out Hout)
    as (He & Hne & Hs & Hr & _ & _).
  destruct (@run_clips B image_paths audio_path transition_duration
              fade_in_duration fade_out_duration a Ha He Hne Hs Hr)
    as [Hclips _].
  pose proof (@planner_outcome_run B image_paths audio_path
                transition_duration fade_in_duration fade_out_duration a Ha)
    as Hplan.
  rewrite He, Hs in Hplan.
  destruct (_ =? 0)%Z eqn:Hn in Hplan.
  { apply Z.eqb_eq in Hn. lia. }
  set (s := _ / _) in *.
  destruct (@nth_error_some _ image_paths i ltac:(lia)) as [p Hp].
  destruct (@nth_error_some _ image_paths (i + 1) ltac:(lia)) as [q Hq].
  exists s, (planned_clips image_paths s transition_duration),
         (dissolve_clip p q s transition_duration),
         (exposure_clip p s), (incoming_clip q s transition_duration), p, q.
  repeat (split; [first [assumption | reflexivity]|]).
  split.
  { apply nth_planned_dissolve; [exact Hp|].
    replace (S i) with (i + 1)%nat by lia. exact Hq. }
  repeat (split; [reflexivity|]).
  intros x. apply dissolve_layers_disjoint.
Qed.

Lemma dissolve_geometry_witness :
  exists s clips c cur next p q,
    planner_outcome_of
      (trace (create_video_from_images demo_backend
                ["1.png"; "2.png"; "3.png"]%string "song.mp3" 1 1 1))
    = Some (Planned s)
    /\ clips_of_run
         (trace (create_video_from_images demo_backend
                   ["1.png"; "2.png"; "3.png"]%string "song.mp3" 1 1 1))
       = Some clips
    /\ nth_error ["1.png"; "2.png"; "3.png"]%string 0 = Some p
    /\ nth_error ["1.png"; "2.png"; "3.png"]%string (0 + 1) = Some q
    /\ nth_error clips 0 = Some c
    /\ clip_duration c = Some (s + 1)
    /\ layers_of c = [cur; next]
    /\ image_of cur = Some p
    /\ clip_start cur = 0
    /\ clip_end cur = Some s
    /\ is_transition cur = false
    /\ image_of next = Some q
    /\ clip_start next = s
    /\ clip_duration next = Some 1
    /\ is_transition next = true
    /\ forall x, is_playing cur x && is_playing next x = false.
Proof.
  apply (@dissolve_geometry demo_backend
           ["1.png"; "2.png"; "3.png"]%string "song.mp3" 1 1 1
           "/tmp/output_0f8b.mp4" 0).
  - reflexivity.
  - cbn. lia.
Defined.

(** ** The failure boundaries *)

Lemma inject_Z_pred (n : Z) : inject_Z (n - 1) == inject_Z n - 1.
Proof.
  unfold Z.sub. rewrite inject_Z_plus. reflexivity.
Qed.

Lemma inject_Z_pos (n : Z) : (1 <= n)%Z -> 0 < inject_Z n.
Proof.
  intros H. change 0 with (inject_Z 0). rewrite <- Zlt_Qlt. lia.
Qed.

(** The exposure time is positive exactly when the transitions leave
    something of the effective duration. *)
Lemma exposure_positive_iff (eff t : Q) (n : Z) :
  (1 <= n)%Z ->
  0 < (eff - total_transition_time n t) / inject_Z n
  <-> inject_Z (n - 1) * t < eff.
Proof.
  intros Hn. pose proof (inject_Z_pos Hn) as Hpos.
  unfold total_transition_time. split; intros H.
  - apply (Qmult_lt_compat_r _ _ _ Hpos) in H.
    rewrite Qmult_0_l in H.
    rewrite Qmult_comm, Qmult_div_r in H by (apply inject_Z_nonzero; lia).
    lra.
  - apply Qlt_shift_div_l; [exact Hpos|]. lra.
Qed.





(** C10 (empty batch).  Called with no image and an audio longer than
    the two fades, the division by the number of images raises
    [ZeroDivisionError]; the handler of the function catches it, reports a
    render error carrying it and returns [None]: the failure is neither
    [AudioTooShort] nor [TooManyImages].  The button handler never makes
    such a call: with no uploaded image it only reports that uploads are
    missing. *)
Theorem empty_batch_division
  B audio_path transition_duration fade_in_duration fade_out_duration
  (a : Q) tmpdir uploaded_audio :
  let run := create_video_from_images B [] audio_path
               transition_duration fade_in_duration fade_out_duration in
  probe_audio B audio_path = inr a ->
  fade_in_duration + fade_out_duration < a ->
  outcome (single_image_duration
             (effective_video_duration a fade_in_duration fade_out_duration)
             (total_transition_time 0 transition_duration) 0)
  = inl ZeroDivisionError
  /\ run = ([St_info MsgStarting; Mp_AudioFileClip audio_path;
             St_write (MsgAudioLength a);
             St_error (MsgRenderError ZeroDivisionError)], inr None)
  /\ planner_outcome_of (trace run) = None
  /\ button_handler B tmpdir [] uploaded_audio
     = ([St_error MsgMissingUploads], inr tt).
Proof.
  intros run Ha Hlt. subst run.
  assert (He : Qle_bool (effective_video_duration a fade_in_duration
                                                  fade_out_duration) 0
               = false).
  { apply Qle_bool_false. unfold effective_video_duration. lra. }
  rewrite (@run_no_image B [] audio_path transition_duration
             fade_in_duration fade_out_duration a Ha He eq_refl).
  repeat split; reflexivity.
Qed.

Lemma empty_batch_division_witness :
  outcome (single_image_duration (effective_video_duration 10 1 1)
                                 (total_transition_time 0 1) 0)
  = inl ZeroDivisionError
  /\ create_video_from_images demo_backend [] "song.mp3" 1 1 1
     = ([St_info MsgStarting; Mp_AudioFileClip "song.mp3";
         St_write (MsgAudioLength 10);
         St_error (MsgRenderError ZeroDivisionError)], inr None)
  /\ planner_outcome_of
       (trace (create_video_from_images demo_backend [] "song.mp3" 1 1 1))
     = None
  /\ button_handler demo_backend "/tmp/up" []
       (Some (mkUpload "song.mp3" []))
     = ([St_error MsgMissingUploads], inr tt).
Proof.
  apply (@empty_batch_division demo_backend "song.mp3" 1 1 1 10 "/tmp/up"
           (Some (mkUpload "song.mp3" []))).
  - reflexivity.
  - reflexivity.
Defined.




(** The spec's scenario: five images on a five second track. *)
Example five_images_five_seconds :
  create_video_from_images
    (mkBackend (fun _ => inr 5) (fun _ => None) (fun _ _ => None)
               "0f8b" "/tmp")
    ["1.png"; "2.png"; "3.png"; "4.png"; "5.png"]%string "song.mp3" 1 1 1
  = ([St_info MsgStarting; Mp_AudioFileClip "song.mp3";
      St_write (MsgAudioLength 5); St_error MsgTooManyImages], inr None).
Proof. reflexivity. Qed.

(** ** The concatenated clip *)

Lemma planned_durations_repeat paths s t :
  paths <> [] ->
  planned_durations paths s t
  = repeat (s + t) (List.length paths - 1) ++ [s].
Proof.
  induction paths as [|p rest IH]; [congruence|]. intros _.
  cbn [planned_durations].
  destruct rest as [|q rest]; [reflexivity|].
  rewrite IH by discriminate. cbn [List.length].
  replace (S (S (List.length rest)) - 1)%nat
    with (S (S (List.length rest) - 1)) by lia.
  reflexivity.
Qed.

(** C2, as the code has it (concatenated total duration).  In every
    successful run the built clips last [single_image_duration +
    transition_duration] each, except the last, which lasts
    [single_image_duration]; their concatenation, which is the clip handed
    to the encoder, lasts the sum of these, and that sum is the effective
    duration [audio_duration - fade_in_duration - fade_out_duration]: the
    transition time is inside the effective duration, not added to it. *)
Theorem concatenated_duration
  B image_paths audio_path transition_duration fade_in_duration
  fade_out_duration (a : Q) out :
  let N := List.length image_paths in
  let run := create_video_from_images B image_paths audio_path
               transition_duration fade_in_duration fade_out_duration in
  probe_audio B audio_path = inr a ->
  outcome run = inr (Some out) ->
  exists s clips c final d,
    planner_outcome_of (trace run) = Some (Planned s)
    /\ clips_of_run (trace run) = Some clips
    /\ map clip_duration clips
       = repeat (Some (s + transition_duration)) (N - 1) ++ [Some s]
    /\ outcome (concatenate_videoclips clips) = inr c
    /\ clip_duration c = Some d
    /\ encoded_clip (trace run) = Some final
    /\ clip_duration final = Some d
    /\ d == a - fade_in_duration - fade_out_duration.
Proof.
  intros N run Ha Hout. subst N run.
  destruct (@run_success_inv B image_paths audio_path transition_duration
              fade_in_duration fade_out_duration a Ha out Hout)
    as (He & Hne & Hs & Hr & _ & _).
  destruct (@run_clips B image_paths audio_path transition_duration
              fade_in_duration fade_out_duration a Ha He Hne Hs Hr)
    as [Hclips Hfinal].
  pose proof (@planner_outcome_run B image_paths audio_path
                transition_duration fade_in_duration fade_out_duration a Ha)
    as Hplan.
  rewrite He, Hs in Hplan.
  assert (Hn : Z.of_nat (List.length image_paths) <> 0%Z).
  { destruct image_paths; [congruence | cbn [List.length]; lia]. }
  destruct (_ =? 0)%Z eqn:E in Hplan; [apply Z.eqb_eq in E; contradiction|].
  set (s := _ / _) in *.
  eexists s, _, _, _, _.
  split; [exact Hplan|]. split; [exact Hclips|]. split.
  { rewrite planned_clips_durations, planned_durations_repeat by exact Hne.
    rewrite map_app, map_repeat. reflexivity. }
  split.
  { rewrite (concatenate_planned s transition_duration Hne). reflexivity. }
  split; [reflexivity|]. split; [exact Hfinal|]. split; [reflexivity|].
  rewrite Qsum_planned_durations by exact Hne.
  apply budget_spent. exact Hn.
Qed.

Lemma concatenated_duration_witness :
  exists s clips c final d,
    planner_outcome_of
      (trace (create_video_from_images demo_backend
                ["1.png"; "2.png"; "3.png"]%string "song.mp3" 1 1 1))
    = Some (Planned s)
    /\ clips_of_run
         (trace (create_video_from_images demo_backend
                   ["1.png"; "2.png"; "3.png"]%string "song.mp3" 1 1 1))
       = Some clips
    /\ map clip_duration clips = repeat (Some (s + 1)) (3 - 1) ++ [Some s]
    /\ outcome (concatenate_videoclips clips) = inr c
    /\ clip_duration c = Some d
    /\ encoded_clip
         (trace (create_video_from_images demo_backend
                   ["1.png"; "2.png"; "3.png"]%string "song.mp3" 1 1 1))
       = Some final
    /\ clip_duration final = Some d
    /\ d == 10 - 1 - 1.
Proof.
  apply (@concatenated_duration demo_backend
           ["1.png"; "2.png"; "3.png"]%string "song.mp3" 1 1 1 10
           "/tmp/output_0f8b.mp4").
  - reflexivity.
  - reflexivity.
Defined.

(** C2 as stated fails: on three images, a ten second track and one
    second for each effect the run succeeds, and the concatenation of its
    clips (3 s, 3 s and 2 s) lasts 8 seconds, which is the effective
    duration and not the effective duration plus the 2 seconds of
    transitions. *)
Lemma concatenated_duration_counterexample :
  outcome (create_video_from_images demo_backend
             ["1.png"; "2.png"; "3.png"]%string "song.mp3" 1 1 1)
  = inr (Some "/tmp/output_0f8b.mp4"%string)
  /\ match clips_of_run
             (trace (create_video_from_images demo_backend
                       ["1.png"; "2.png"; "3.png"]%string "song.mp3" 1 1 1))
     with
     | Some clips =>
         match outcome (concatenate_videoclips clips) with
         | inr c => clip_duration c
         | inl _ => None
         end
     | None => None
     end = Some (216 # 27)
  /\ (216 # 27) == 8
  /\ effective_video_duration 10 1 1 + total_transition_time 3 1 == 10
  /\ ~ (216 # 27)
       == effective_video_duration 10 1 1 + total_transition_time 3 1.
Proof.
  repeat split; try reflexivity.
  intros H. vm_compute in H. discriminate H.
Qed.

(** ** The failure surface *)

Lemma run_has_shape B image_paths audio_path t fi fo :
  run_shape B image_paths audio_path
            (create_video_from_images B image_paths audio_path t fi fo).
Proof.
  destruct (probe_audio B audio_path) as [e|a] eqn:Ha.
  { rewrite (@run_audio_error B image_paths audio_path t fi fo e Ha).
    apply Shape_audio_error. exact Ha. }
  destruct (Qle_bool (effective_video_duration a fi fo) 0) eqn:He.
  { rewrite (@run_audio_too_short B image_paths audio_path t fi fo a Ha He).
    apply Shape_audio_too_short. exact Ha. }
  destruct image_paths as [|p0 rest] eqn:Hpaths.
  { rewrite (@run_no_image B [] audio_path t fi fo a Ha He eq_refl).
    apply Shape_no_image; [exact Ha | reflexivity]. }
  rewrite <- Hpaths.
  assert (Hne : image_paths <> []) by (rewrite Hpaths; discriminate).
  clear Hpaths.
  set (s := (effective_video_duration a fi fo
             - total_transition_time (Z.of_nat (List.length image_paths)) t)
            / inject_Z (Z.of_nat (List.length image_paths))).
  destruct (Qle_bool s 0) eqn:Hs.
  { rewrite (@run_too_many_images B image_paths audio_path t fi fo a Ha
               He Hne Hs).
    apply Shape_too_many_images. exact Ha. }
  destruct (readable_dec B image_paths) as [Hr | Hr].
  - rewrite (@run_built B image_paths audio_path t fi fo a Ha He Hne Hs Hr).
    fold s.
    destruct (encode B _ (output_path B)) as [e|] eqn:Henc.
    + eapply Shape_encode_error;
        [exact Ha | apply planned_events_build | exact Henc].
    + eapply Shape_success;
        [exact Ha | apply planned_events_build | exact Henc].
  - destruct (@run_unreadable B image_paths audio_path t fi fo a Ha
                He Hne Hs Hr) as (tr & e & -> & Htr & p & Hin & Hp).
    eapply Shape_unreadable; eassumption.
Qed.

Lemma last_app_nonempty {A} (l l' : list A) (d : A) :
  l' <> [] -> last (l ++ l') d = last l' d.
Proof.
  intros Hne. induction l as [|x l IH]; [reflexivity|].
  cbn [app]. destruct (l ++ l') eqn:E.
  - apply app_eq_nil in E. destruct E. contradiction.
  - exact IH.
Qed.

Lemma planner_outcome_build tr tr' :
  Forall build_event tr ->
  planner_outcome_of (tr ++ tr') = planner_outcome_of tr'.
Proof.
  induction 1 as [|ev tr Hev _ IH]; [reflexivity|].
  destruct ev; cbn in Hev; try contradiction; exact IH.
Qed.

(** C9 (uniform failure surface).  On every input and whatever the
    backend answers, [create_video_from_images] returns: no exception
    reaches the caller, and the value is the output path or [None].  An
    exception raised inside the [try] block, at whatever call, is caught
    and reported as a render error carrying that exception.  The two
    planner failures are reported before any clip is constructed and before
    any rendering call.  A run that returns [None] ends on an error report:
    one of the two planner failures, or a render error carrying the
    exception of the audio file, of the division, of an image file or of
    the encoder.  A run that returns a path ends on the success report,
    after the encoder accepted the clip written to that path. *)
Theorem uniform_failure_surface
  B image_paths audio_path transition_duration fade_in_duration
  fade_out_duration :
  let run := create_video_from_images B image_paths audio_path
               transition_duration fade_in_duration fade_out_duration in
  let body := try_block B image_paths audio_path
                transition_duration fade_in_duration fade_out_duration in
  (exists r, outcome run = inr r /\ (r = None \/ r = Some (output_path B)))
  /\ (forall e, outcome body = inl e ->
        run = (St_info MsgStarting :: trace body
                 ++ [St_error (MsgRenderError e)], inr None))
  /\ (forall k, planner_outcome_of (trace run) = Some k ->
        k = AudioTooShort \/ k = TooManyImages ->
        outcome run = inr None
        /\ existsb is_render_event (trace run) = false)
  /\ (outcome run = inr None ->
        exists m,
          last (trace run) (St_info MsgStarting) = St_error m
          /\ (m = MsgAudioTooShort \/ m = MsgTooManyImages
              \/ exists e,
                  m = MsgRenderError e
                  /\ (probe_audio B audio_path = inl e
                      \/ (e = ZeroDivisionError /\ image_paths = [])
                      \/ (exists p, In p image_paths
                                    /\ probe_image B p = Some e)
                      \/ (exists c, encode B c (output_path B) = Some e))))
  /\ (forall out, outcome run = inr (Some out) ->
        last (trace run) (St_info MsgStarting) = St_success MsgDone
        /\ exists c, In (Mp_write_videofile c out) (trace run)
                     /\ encode B c out = None).
Proof.
  intros run body.
  assert (Hbody : forall e, outcome body = inl e ->
            run = (St_info MsgStarting :: trace body
                     ++ [St_error (MsgRenderError e)], inr None)).
  { intros e He. subst run. unfold create_video_from_images.
    fold body. destruct body as [tr [e'|r]]; cbn in He; [|discriminate].
    injection He as ->. reflexivity. }
  split; [|split; [exact Hbody|]]; clear Hbody body; subst run.
  - destruct (run_has_shape B image_paths audio_path transition_duration
                fade_in_duration fade_out_duration);
      eexists; (split; [reflexivity|]); auto.
  - destruct (run_has_shape B image_paths audio_path transition_duration
                fade_in_duration fade_out_duration)
      as [e Ha | a Ha | a Ha Hnil | a Ha | a s tr e p Ha Htr Hin Hp
          | a s tr clips c e Ha Htr Henc | a s tr clips c Ha Htr Henc].
    + (* the audio file cannot be opened *)
      split; [|split].
      * intros k Hk. discriminate.
      * intros _. eexists. split; [reflexivity|].
        right. right. eexists. split; [reflexivity|]. left. exact Ha.
      * intros out H. discriminate.
    + (* audio too short *)
      split; [|split].
      * intros k _ _. split; reflexivity.
      * intros _. eexists. split; [reflexivity|]. left. reflexivity.
      * intros out H. discriminate.
    + (* no image *)
      split; [|split].
      * intros k Hk. discriminate.
      * intros _. eexists. split; [reflexivity|].
        right. right. eexists. split; [reflexivity|].
        right. left. split; [reflexivity | exact Hnil].
      * intros out H. discriminate.
    + (* too many images *)
      split; [|split].
      * intros k _ _. split; reflexivity.
      * intros _. eexists. split; [reflexivity|]. right. left. reflexivity.
      * intros out H. discriminate.
    + (* an image cannot be read *)
      split; [|split].
      * intros k Hk [-> | ->]; discriminate.
      * intros _. exists (MsgRenderError e). split.
        -- cbn [trace fst].
           change (opening audio_path a
                     ++ St_write (MsgExposureTime s) :: tr
                     ++ [St_error (MsgRenderError e)])
             with ((opening audio_path a ++ [St_write (MsgExposureTime s)])
                     ++ tr ++ [St_error (MsgRenderError e)]).
           rewrite app_assoc. apply last_last.
        -- right. right. eexists. split; [reflexivity|].
           right. right. left. exists p. split; assumption.
      * intros out H. discriminate.
    + (* the encoder fails *)
      split; [|split].
      * intros k Hk [-> | ->]; discriminate.
      * intros _. exists (MsgRenderError e). split.
        -- cbn [trace fst].
           rewrite last_app_nonempty by discriminate.
           change (St_write (MsgExposureTime s) :: tr ++ _)
             with ((St_write (MsgExposureTime s) :: tr)
                     ++ [Mp_concatenate_videoclips clips;
                         St_write MsgEncoding;
                         Mp_write_videofile c (output_path B);
                         St_error (MsgRenderError e)]).
           rewrite last_app_nonempty by discriminate. reflexivity.
        -- right. right. eexists. split; [reflexivity|].
           right. right. right. exists c. exact Henc.
      * intros out H. discriminate.
    + (* success *)
      split; [|split].
      * intros k Hk [-> | ->]; discriminate.
      * intros H. discriminate.
      * intros out H. cbn [outcome snd] in H. injection H as <-.
        split.
        -- cbn [trace fst].
           rewrite last_app_nonempty by discriminate.
           change (St_write (MsgExposureTime s) :: tr ++ _)
             with ((St_write (MsgExposureTime s) :: tr)
                     ++ [Mp_concatenate_videoclips clips;
                         St_write MsgEncoding;
                         Mp_write_videofile c (output_path B);
                         St_success MsgDone]).
           rewrite last_app_nonempty by discriminate. reflexivity.
        -- exists c. split; [|exact Henc].
           cbn [trace fst]. apply in_or_app. right. right.
           apply in_or_app. right. cbn. auto.
Qed.

(** ** The order of the images *)

Lemma ascii_compare_refl (c : ascii) : Ascii.compare c c = Eq.
Proof. unfold Ascii.compare. apply N.compare_refl. Qed.

Lemma string_compare_refl (x : string) : String.compare x x = Eq.
Proof.
  induction x as [|c x IH]; [reflexivity|].
  cbn [String.compare]. rewrite ascii_compare_refl. exact IH.
Qed.

Lemma string_compare_lt_trans : forall x y z : string,
  String.compare x y = Lt -> String.compare y z = Lt ->
  String.compare x z = Lt.
Proof.
  induction x as [|a x IH]; intros [|b y] [|c z]; cbn [String.compare];
    try discriminate; try reflexivity.
  destruct (Ascii.compare a b) eqn:Eab; try discriminate;
    destruct (Ascii.compare b c) eqn:Ebc; try discriminate; intros Hxy Hyz.
  - apply Ascii.compare_eq_iff in Eab, Ebc. subst.
    rewrite ascii_compare_refl. eapply IH; eassumption.
  - apply Ascii.compare_eq_iff in Eab. subst. rewrite Ebc. reflexivity.
  - apply Ascii.compare_eq_iff in Ebc. subst. rewrite Eab. reflexivity.
  - unfold Ascii.compare in *.
    rewrite N.compare_lt_iff in Eab, Ebc.
    assert (H : (N_of_ascii a ?= N_of_ascii c)%N = Lt).
    { apply N.compare_lt_iff. lia. }
    rewrite H. reflexivity.
Qed.

Lemma string_le_refl (x : string) : string_le x x.
Proof.
  unfold string_le, String.leb. rewrite string_compare_refl. reflexivity.
Qed.

Lemma string_le_trans (x y z : string) :
  string_le x y -> string_le y z -> string_le x z.
Proof.
  unfold string_le, String.leb. intros Hxy Hyz.
  destruct (String.compare x y) eqn:Exy; try discriminate.
  - apply String.compare_eq_iff in Exy. subst. exact Hyz.
  - destruct (String.compare y z) eqn:Eyz; try discriminate.
    + apply String.compare_eq_iff in Eyz. subst. rewrite Exy. reflexivity.
    + rewrite (string_compare_lt_trans _ _ _ Exy Eyz). reflexivity.
Qed.

Lemma ltb_true_le (x y : string) : (x <? y)%string = true -> string_le x y.
Proof.
  unfold string_le, String.ltb, String.leb.
  destruct (String.compare x y); cbn; congruence.
Qed.

Lemma ltb_false_le (x y : string) : (x <? y)%string = false -> string_le y x.
Proof.
  unfold string_le, String.ltb, String.leb.
  rewrite (String.compare_antisym x y).
  destruct (String.compare y x); cbn; congruence.
Qed.

Lemma insort_perm (x : string) (l : list string) :
  Permutation (insort x l) (x :: l).
Proof.
  induction l as [|y l IH]; cbn [insort]; [reflexivity|].
  destruct (x <? y)%string; [reflexivity|].
  rewrite IH. apply perm_swap.
Qed.

Lemma insort_hd (x y : string) (l : list string) :
  string_le y x -> HdRel string_le y l -> HdRel string_le y (insort x l).
Proof.
  intros Hyx Hl. destruct l as [|z l]; cbn [insort].
  - constructor. exact Hyx.
  - destruct (x <? z)%string; constructor; [exact Hyx|].
    inversion Hl; assumption.
Qed.

Lemma insort_sorted (x : string) (l : list string) :
  Sorted string_le l -> Sorted string_le (insort x l).
Proof.
  induction 1 as [|y l Hl IH Hy]; cbn [insort].
  - repeat constructor.
  - destruct (x <? y)%string eqn:E.
    + constructor; [constructor; assumption|].
      constructor. apply ltb_true_le. exact E.
    + constructor; [exact IH|].
      apply insort_hd; [apply ltb_false_le; exact E | exact Hy].
Qed.

Lemma fold_insort_perm (l : list string) : forall acc,
  Permutation (fold_left (fun sorted x => insort x sorted) l acc) (l ++ acc).
Proof.
  induction l as [|x l IH]; intros acc; cbn [fold_left app]; [reflexivity|].
  rewrite IH. rewrite insort_perm. symmetry. apply Permutation_middle.
Qed.

Lemma fold_insort_sorted (l : list string) : forall acc,
  Sorted string_le acc ->
  Sorted string_le (fold_left (fun sorted x => insort x sorted) l acc).
Proof.
  induction l as [|x l IH]; intros acc Hacc; cbn [fold_left]; [exact Hacc|].
  apply IH. apply insort_sorted. exact Hacc.
Qed.

Lemma list_sort_perm (l : list string) : Permutation (list_sort l) l.
Proof.
  unfold list_sort. rewrite fold_insort_perm, app_nil_r. reflexivity.
Qed.

Lemma list_sort_sorted (l : list string) : Sorted string_le (list_sort l).
Proof.
  apply fold_insort_sorted. constructor.
Qed.

(** A sorted list is determined by its elements. *)
Lemma sorted_perm_unique (l1 : list string) : forall l2,
  StronglySorted string_le l1 -> StronglySorted string_le l2 ->
  Permutation l1 l2 -> l1 = l2.
Proof.
  induction l1 as [|x l1 IH]; intros l2 H1 H2 Hp.
  - apply Permutation_nil in Hp. congruence.
  - destruct l2 as [|y l2].
    { symmetry in Hp. apply Permutation_nil in Hp. discriminate. }
    inversion H1 as [|? ? Hs1 Hx]; subst.
    inversion H2 as [|? ? Hs2 Hy]; subst.
    assert (Hxy : x = y).
    { assert (Hin1 : In x (y :: l2))
        by (eapply Permutation_in; [exact Hp | left; reflexivity]).
      assert (Hin2 : In y (x :: l1))
        by (eapply Permutation_in;
            [symmetry; exact Hp | left; reflexivity]).
      destruct Hin1 as [E | Hin1]; [congruence|].
      destruct Hin2 as [E | Hin2]; [congruence|].
      rewrite Forall_forall in Hx, Hy.
      apply String.leb_antisym; [apply Hx | apply Hy]; assumption. }
    subst y. f_equal.
    apply IH; try assumption.
    eapply Permutation_cons_inv. exact Hp.
Qed.


(** *** Paths with a common directory *)

Lemma string_compare_append (p x y : string) :
  String.compare (p ++ x) (p ++ y) = String.compare x y.
Proof.
  induction p as [|c p IH]; [reflexivity|].
  cbn [append String.compare]. rewrite ascii_compare_refl. exact IH.
Qed.

Lemma insort_append (p x : string) (l : list string) :
  insort (p ++ x) (map (append p) l) = map (append p) (insort x l).
Proof.
  induction l as [|y l IH]; [reflexivity|].
  cbn [map insort]. unfold String.ltb at 1.
  rewrite string_compare_append. fold (String.ltb x y).
  destruct (x <? y)%string; [reflexivity|].
  cbn [map]. rewrite IH. reflexivity.
Qed.

Lemma list_sort_append (p : string) (l : list string) :
  list_sort (map (append p) l) = map (append p) (list_sort l).
Proof.
  unfold list_sort. change (@nil string) with (map (append p) []) at 1.
  generalize (@nil string) as acc.
  induction l as [|x l IH]; intros acc; cbn [map fold_left]; [reflexivity|].
  rewrite insort_append. apply IH.
Qed.

Lemma string_append_assoc (x y z : string) :
  ((x ++ y) ++ z)%string = (x ++ y ++ z)%string.
Proof.
  induction x as [|c x IH]; [reflexivity|].
  cbn [append]. rewrite IH. reflexivity.
Qed.

Lemma os_path_join_relative (tmpdir nm : string) :
  starts_with_sep nm = false ->
  os_path_join tmpdir nm = (dir_prefix tmpdir ++ nm)%string.
Proof.
  intros H. unfold os_path_join, dir_prefix. rewrite H.
  destruct (_ || _); [reflexivity|].
  rewrite string_append_assoc. reflexivity.
Qed.

Lemma staged_paths_relative tmpdir (uploads : list UploadedFile) :
  Forall (fun f => starts_with_sep (name f) = false) uploads ->
  staged_paths tmpdir uploads
  = map (append (dir_prefix tmpdir)) (map name uploads).
Proof.
  unfold staged_paths. rewrite map_map.
  induction 1 as [|f uploads Hf _ IH]; [reflexivity|].
  cbn [map]. rewrite IH, (os_path_join_relative _ _ Hf). reflexivity.
Qed.

(** *** The handler *)

Lemma stage_all tmpdir (uploads : list UploadedFile) : forall acc,
  for_each (fun image_paths uploaded_file =>
              path <- stage tmpdir uploaded_file ;;
              ret (image_paths ++ [path]))
           uploads acc
  = (staging_events tmpdir uploads,
     inr (acc ++ staged_paths tmpdir uploads)).
Proof.
  induction uploads as [|f uploads IH]; intros acc.
  - cbn. rewrite app_nil_r. reflexivity.
  - cbn [for_each]. unfold stage at 1. cbn [emit bind ret app].
    rewrite IH. cbn [staging_events staged_paths map].
    rewrite <- app_assoc. reflexivity.
Qed.

Lemma button_handler_call B tmpdir (uploaded_images : list UploadedFile)
  (audio : UploadedFile) :
  uploaded_images <> [] ->
  button_handler B tmpdir uploaded_images (Some audio)
  = bind (staging_events tmpdir (uploaded_images ++ [audio]), inr tt)
         (fun _ =>
            video_path <-
              create_video_from_images B
                (processing_order tmpdir uploaded_images)
                (os_path_join tmpdir (name audio)) 1 1 1 ;;
            present_video video_path).
Proof.
  intros Hne. unfold button_handler.
  destruct uploaded_images as [|f rest] eqn:E; [congruence|].
  rewrite <- E. rewrite stage_all. unfold stage.
  cbn [emit bind ret app]. fold (processing_order tmpdir uploaded_images).
  destruct (_ <- create_video_from_images _ _ _ _ _ _ ;; _) as [tr r].
  unfold staging_events. rewrite map_app, <- app_assoc. reflexivity.
Qed.

(** Batches without repeated names that hold the same names are
    rearrangements of each other. *)
Lemma same_names_permutation (names1 names2 : list string) :
  NoDup names1 -> NoDup names2 ->
  (forall x, In x names1 <-> In x names2) ->
  Permutation names1 names2.
Proof.
  intros H1 H2 H. apply NoDup_Permutation; assumption.
Qed.



(** The order on a concrete batch. *)
Example processing_order_example :
  processing_order "/tmp/up"
    [mkUpload "10.png" []; mkUpload "2.png" []; mkUpload "1.png" []]
  = ["/tmp/up/1.png"; "/tmp/up/10.png"; "/tmp/up/2.png"]%string.
Proof. reflexivity. Qed.

(** * Further properties of the code *)

(** ** What a run emits and returns *)

Lemma build_event_run_event tr :
  Forall build_event tr -> Forall run_event tr.
Proof.
  apply Forall_impl. intros ev H. destruct ev; cbn in *; tauto.
Qed.

Lemma run_events_plain B image_paths audio_path t fi fo :
  Forall run_event
    (trace (create_video_from_images B image_paths audio_path t fi fo)).
Proof.
  destruct (run_has_shape B image_paths audio_path t fi fo)
    as [e Ha | a Ha | a Ha Hnil | a Ha | a s tr e p Ha Htr Hin Hp
        | a s tr clips c e Ha Htr Henc | a s tr clips c Ha Htr Henc];
    cbn [trace fst opening app];
    repeat (apply Forall_cons; [exact I|]);
    try apply Forall_nil;
    (apply Forall_app; split;
     [apply build_event_run_event; exact Htr | repeat constructor]).
Qed.

Lemma run_outcome_cases B image_paths audio_path t fi fo :
  outcome (create_video_from_images B image_paths audio_path t fi fo)
  = inr None
  \/ outcome (create_video_from_images B image_paths audio_path t fi fo)
     = inr (Some (output_path B)).
Proof.
  destruct (run_has_shape B image_paths audio_path t fi fo); auto.
Qed.

Lemma output_path_nonempty B : output_path B <> EmptyString.
Proof.
  unfold output_path, os_path_join. cbn [append starts_with_sep Ascii.eqb].
  cbn.
  destruct (_ || _); destruct (gettempdir B); discriminate.
Qed.

(** ** The button handler *)

Lemma staging_events_writes tmpdir uploads ev :
  In ev (staging_events tmpdir uploads) -> exists p d, ev = Fs_write p d.
Proof.
  unfold staging_events. intros H. apply in_map_iff in H.
  destruct H as (f & <- & _). eauto.
Qed.

Lemma button_handler_trace B tmpdir (uploaded_images : list UploadedFile)
  (audio : UploadedFile) :
  uploaded_images <> [] ->
  button_handler B tmpdir uploaded_images (Some audio)
  = (staging_events tmpdir (uploaded_images ++ [audio])
       ++ trace (create_video_from_images B
                   (processing_order tmpdir uploaded_images)
                   (os_path_join tmpdir (name audio)) 1 1 1)
       ++ match outcome (create_video_from_images B
                           (processing_order tmpdir uploaded_images)
                           (os_path_join tmpdir (name audio)) 1 1 1) with
          | inr (Some p) => [St_header; St_video p; St_download_button p]
          | _ => []
          end,
     inr tt).
Proof.
  intros Hne. rewrite (button_handler_call B tmpdir audio Hne).
  destruct (run_outcome_cases B (processing_order tmpdir uploaded_images)
              (os_path_join tmpdir (name audio)) 1 1 1) as [Ho | Ho];
    destruct (create_video_from_images _ _ _ _ _ _) as [tr o];
    cbn [outcome snd trace fst] in *; subst o;
    cbn [bind present_video ret].
  - rewrite !app_nil_r. reflexivity.
  - destruct (String.eqb (output_path B) "") eqn:E.
    + apply String.eqb_eq in E. destruct (@output_path_nonempty B E).
    + cbn [bind emit app]. reflexivity.
Qed.



(** ** The staged files *)

Lemma file_content_app tr1 tr2 path :
  file_content (tr1 ++ tr2) path
  = match file_content tr2 path with
    | Some later => Some later
    | None => file_content tr1 path
    end.
Proof.
  induction tr1 as [|ev tr1 IH]; cbn [app file_content].
  - destruct (file_content tr2 path); reflexivity.
  - destruct ev; try exact IH.
    rewrite IH. destruct (file_content tr2 path); reflexivity.
Qed.

Lemma file_content_no_write tr path :
  Forall run_event tr -> file_content tr path = None.
Proof.
  induction 1 as [|ev tr Hev _ IH]; [reflexivity|].
  destruct ev; cbn in Hev; try contradiction; exact IH.
Qed.

Lemma file_content_other_paths tmpdir uploads path :
  Forall (fun g => os_path_join tmpdir (name g) <> path) uploads ->
  file_content (staging_events tmpdir uploads) path = None.
Proof.
  induction 1 as [|g uploads Hg _ IH]; [reflexivity|].
  cbn [staging_events map file_content].
  fold (staging_events tmpdir uploads). rewrite IH.
  apply String.eqb_neq in Hg. rewrite Hg. reflexivity.
Qed.

Lemma file_content_staged tmpdir before f after :
  Forall (fun g => os_path_join tmpdir (name g)
                   <> os_path_join tmpdir (name f)) after ->
  file_content (staging_events tmpdir (before ++ f :: after))
               (os_path_join tmpdir (name f))
  = Some (getbuffer f).
Proof.
  intros Hafter. unfold staging_events. rewrite map_app.
  rewrite file_content_app. cbn [map file_content].
  fold (staging_events tmpdir after).
  rewrite (@file_content_other_paths _ _ _ Hafter), String.eqb_refl.
  reflexivity.
Qed.

(** X2.  Staging keeps the last upload of each path: when an upload (image or
    audio) is not followed by another upload staged at the same path, the
    file at its path holds its bytes once staging is done, and still does
    when the handler ends, since nothing else writes a file.  An earlier
    upload with the same name is overwritten. *)
Theorem staged_file_holds_last_upload
  B tmpdir (uploaded_images : list UploadedFile)
  (uploaded_audio : UploadedFile)
  (before after : list UploadedFile) (f : UploadedFile) :
  uploaded_images <> [] ->
  uploaded_images ++ [uploaded_audio] = before ++ f :: after ->
  Forall (fun g => os_path_join tmpdir (name g)
                   <> os_path_join tmpdir (name f)) after ->
  file_content
    (staging_events tmpdir (uploaded_images ++ [uploaded_audio]))
    (os_path_join tmpdir (name f)) = Some (getbuffer f)
  /\ file_content
       (trace (button_handler B tmpdir uploaded_images
                 (Some uploaded_audio)))
       (os_path_join tmpdir (name f)) = Some (getbuffer f).
Proof.
  intros Hne Hsplit Hafter.
  assert (Hstaged :
            file_content
              (staging_events tmpdir (uploaded_images ++ [uploaded_audio]))
              (os_path_join tmpdir (name f)) = Some (getbuffer f)).
  { rewrite Hsplit. apply file_content_staged. exact Hafter. }
  split; [exact Hstaged|].
  rewrite (button_handler_trace B tmpdir uploaded_audio Hne).
  cbn [trace fst]. rewrite !file_content_app.
  rewrite (@file_content_no_write _ _
             (run_events_plain B (processing_order tmpdir uploaded_images)
                (os_path_join tmpdir (name uploaded_audio)) 1 1 1)).
  destruct (outcome _) as [e | [q|]]; cbn [file_content]; exact Hstaged.
Qed.

Lemma staged_file_holds_last_upload_witness :
  file_content
    (staging_events "/tmp/up"
       ([mkUpload "a.png" [Byte.x01]; mkUpload "a.png" [Byte.x02]]
          ++ [mkUpload "song.mp3" [Byte.x03]]))
    (os_path_join "/tmp/up" (name (mkUpload "a.png" [Byte.x02])))
  = Some (getbuffer (mkUpload "a.png" [Byte.x02]))
  /\ file_content
       (trace (button_handler demo_backend "/tmp/up"
                 [mkUpload "a.png" [Byte.x01]; mkUpload "a.png" [Byte.x02]]
                 (Some (mkUpload "song.mp3" [Byte.x03]))))
       (os_path_join "/tmp/up" (name (mkUpload "a.png" [Byte.x02])))
     = Some (getbuffer (mkUpload "a.png" [Byte.x02])).
Proof.
  apply (@staged_file_holds_last_upload demo_backend "/tmp/up"
           [mkUpload "a.png" [Byte.x01]; mkUpload "a.png" [Byte.x02]]
           (mkUpload "song.mp3" [Byte.x03])
           [mkUpload "a.png" [Byte.x01]]
           [mkUpload "song.mp3" [Byte.x03]]
           (mkUpload "a.png" [Byte.x02])).
  - discriminate.
  - reflexivity.
  - repeat constructor. cbn. discriminate.
Defined.

(** ** The output path *)

Lemma string_append_inj_l (p x y : string) :
  (p ++ x)%string = (p ++ y)%string -> x = y.
Proof.
  induction p as [|c p IH]; cbn [append]; intros H; [exact H|].
  injection H as H. exact (IH H).
Qed.

Lemma string_length_append (x y : string) :
  String.length (x ++ y) = (String.length x + String.length y)%nat.
Proof.
  induction x as [|c x IH]; cbn [append String.length]; [reflexivity|].
  rewrite IH. reflexivity.
Qed.

Lemma string_append_inj_r (z : string) : forall x y : string,
  (x ++ z)%string = (y ++ z)%string -> x = y.
Proof.
  induction x as [|c x IH]; intros [|d y] H; cbn [append] in H.
  - reflexivity.
  - apply (f_equal String.length) in H. cbn [String.length] in H.
    rewrite string_length_append in H. lia.
  - apply (f_equal String.length) in H. cbn [String.length] in H.
    rewrite string_length_append in H. lia.
  - injection H as -> H. f_equal. exact (IH _ H).
Qed.

Lemma output_path_format B :
  output_path B
  = (dir_prefix (gettempdir B) ++ "output_" ++ uuid4 B ++ ".mp4")%string.
Proof.
  unfold output_path. apply os_path_join_relative. reflexivity.
Qed.

(** X3.  The path a successful call returns is the temporary directory
    followed by [output_<identifier>.mp4]; two successful calls that share
    the temporary directory and draw different identifiers return
    different paths, so neither overwrites the other's video. *)
Theorem distinct_identifiers_distinct_outputs
  B1 B2 image_paths1 image_paths2 audio_path1 audio_path2
  t1 fi1 fo1 t2 fi2 fo2 (out1 out2 : string) :
  outcome (create_video_from_images B1 image_paths1 audio_path1 t1 fi1 fo1)
  = inr (Some out1) ->
  outcome (create_video_from_images B2 image_paths2 audio_path2 t2 fi2 fo2)
  = inr (Some out2) ->
  gettempdir B1 = gettempdir B2 ->
  uuid4 B1 <> uuid4 B2 ->
  out1 = (dir_prefix (gettempdir B1) ++ "output_" ++ uuid4 B1 ++ ".mp4")%string
  /\ out2
     = (dir_prefix (gettempdir B2) ++ "output_" ++ uuid4 B2 ++ ".mp4")%string
  /\ out1 <> out2.
Proof.
  intros H1 H2 Hdir Hid.
  destruct (run_outcome_cases B1 image_paths1 audio_path1 t1 fi1 fo1)
    as [E1 | E1]; rewrite E1 in H1; [discriminate|].
  destruct (run_outcome_cases B2 image_paths2 audio_path2 t2 fi2 fo2)
    as [E2 | E2]; rewrite E2 in H2; [discriminate|].
  injection H1 as <-. injection H2 as <-.
  rewrite !output_path_format. repeat split.
  rewrite Hdir. intros E. apply Hid.
  apply string_append_inj_l in E.
  apply (string_append_inj_l "output_") in E.
  exact (string_append_inj_r _ _ _ E).
Qed.

Lemma distinct_identifiers_distinct_outputs_witness :
  "/tmp/output_0f8b.mp4"%string
  = (dir_prefix (gettempdir demo_backend) ++ "output_"
       ++ uuid4 demo_backend ++ ".mp4")%string
  /\ "/tmp/output_77c1.mp4"%string
     = (dir_prefix "/tmp" ++ "output_" ++ "77c1" ++ ".mp4")%string
  /\ "/tmp/output_0f8b.mp4"%string <> "/tmp/output_77c1.mp4"%string.
Proof.
  apply (@distinct_identifiers_distinct_outputs
           demo_backend
           (mkBackend (fun _ => inr 10) (fun _ => None) (fun _ _ => None)
                      "77c1" "/tmp")
           ["1.png"%string] ["2.png"%string] "song.mp3" "song.mp3"
           1 1 1 1 1 1).
  - reflexivity.
  - reflexivity.
  - reflexivity.
  - discriminate.
Defined.

(** ** The clip handed to the encoder *)

Lemma run_encoded_inv
  B image_paths audio_path t fi fo (a : Q) (c : VideoClip) :
  probe_audio B audio_path = inr a ->
  encoded_clip
    (trace (create_video_from_images B image_paths audio_path t fi fo))
  = Some c ->
  let s := (effective_video_duration a fi fo
            - total_transition_time (Z.of_nat (List.length image_paths)) t)
           / inject_Z (Z.of_nat (List.length image_paths)) in
  image_paths <> []
  /\ Forall (readable B) image_paths
  /\ c = final_clip (planned_clips image_paths s t)
                    (planned_durations image_paths s t)
                    fi fo (mkAudio audio_path a).
Proof.
  intros Ha Hc s.
  destruct (Qle_bool (effective_video_duration a fi fo) 0) eqn:He.
  { rewrite (@run_audio_too_short B image_paths audio_path t fi fo a Ha He)
      in Hc. discriminate. }
  destruct (Nat.eq_dec (List.length image_paths) 0) as [Hz | Hz].
  { apply length_zero_iff_nil in Hz.
    rewrite (@run_no_image B image_paths audio_path t fi fo a Ha He Hz)
      in Hc.
    discriminate. }
  assert (Hne : image_paths <> []).
  { intros E. apply Hz. rewrite E. reflexivity. }
  destruct (Qle_bool s 0) eqn:Hs.
  { rewrite (@run_too_many_images B image_paths audio_path t fi fo a Ha
               He Hne Hs) in Hc. discriminate. }
  destruct (readable_dec B image_paths) as [Hr | Hr].
  - destruct (@run_clips B image_paths audio_path t fi fo a Ha He Hne Hs Hr)
      as [_ Hfinal].
    rewrite Hfinal in Hc. injection Hc as <-.
    repeat split; assumption.
  - destruct (@run_unreadable B image_paths audio_path t fi fo a Ha
                He Hne Hs Hr) as (tr & e & Hrun & Htr & _).
    rewrite Hrun in Hc. cbn [trace fst opening app encoded_clip] in Hc.
    rewrite encoded_clip_app in Hc.
    destruct (build_events_no_clips Htr) as [_ Hnone].
    rewrite Hnone in Hc. discriminate.
Qed.

Lemma planned_clips_fps paths s t :
  map clip_fps (planned_clips paths s t)
  = repeat (Some 24%Z) (List.length paths).
Proof.
  induction paths as [|p rest IH]; [reflexivity|].
  cbn [planned_clips map List.length repeat]. rewrite IH.
  destruct rest; reflexivity.
Qed.

Lemma fold_max_repeat (n : nat) (x : Z) :
  fold_left Z.max (repeat x n) x = x.
Proof.
  induction n as [|n IH]; [reflexivity|].
  cbn [repeat fold_left]. rewrite Z.max_id. exact IH.
Qed.

Lemma max_fps_planned paths s t :
  paths <> [] -> max_fps (planned_clips paths s t) = Some 24%Z.
Proof.
  intros Hne. unfold max_fps. rewrite planned_clips_fps.
  destruct paths as [|p rest]; [congruence|].
  cbn [List.length]. generalize (List.length rest) as n. intros n.
  assert (E : forall k,
             filter (fun o : option Z =>
                       match o with Some _ => true | None => false end)
                    (repeat (Some 24%Z) k) = map Some (repeat 24%Z k)).
  { induction k as [|k IH]; [reflexivity|].
    cbn [repeat filter map]. rewrite IH. reflexivity. }
  rewrite E, all_known_map_Some.
  cbn [repeat maximum]. rewrite fold_max_repeat. reflexivity.
Qed.

(** X4.  Whenever a run reaches the encoder, the clip it hands over starts at
    0 at 24 frames per second, carries the fade-in from black and then the
    fade-out to black and nothing else, and has the opened audio track
    attached unchanged.  Its duration falls short of the audio track by
    exactly the two fade durations: the fades are applied inside the
    video, not added around it, and the audio is not trimmed. *)
Theorem encoded_clip_effects
  B image_paths audio_path transition_duration fade_in_duration
  fade_out_duration (a : Q) (c : VideoClip) :
  probe_audio B audio_path = inr a ->
  encoded_clip
    (trace (create_video_from_images B image_paths audio_path
              transition_duration fade_in_duration fade_out_duration))
  = Some c ->
  clip_fx c = [Fadein fade_in_duration [0; 0; 0]%Z;
               Fadeout fade_out_duration [0; 0; 0]%Z]
  /\ clip_audio c = Some (mkAudio audio_path a)
  /\ clip_fps c = Some 24%Z
  /\ clip_start c = 0
  /\ exists d,
      clip_duration c = Some d /\ clip_end c = Some d
      /\ a - d == fade_in_duration + fade_out_duration.
Proof.
  intros Ha Hc.
  destruct (@run_encoded_inv B image_paths audio_path transition_duration
              fade_in_duration fade_out_duration a c Ha Hc)
    as (Hne & Hr & ->).
  unfold final_clip.
  cbn [set_audio fadeout fadein add_fx clip_fx clip_audio clip_fps
       clip_start clip_duration clip_end clip_source app].
  repeat (split; [reflexivity|]).
  split; [apply max_fps_planned; exact Hne|].
  split; [reflexivity|].
  eexists. split; [reflexivity|]. split; [reflexivity|].
  rewrite Qsum_planned_durations by exact Hne.
  rewrite budget_spent.
  - unfold effective_video_duration. ring.
  - destruct image_paths; [congruence | cbn [List.length]; lia].
Qed.

Lemma encoded_clip_effects_witness :
  clip_fx
    (final_clip (planned_clips ["1.png"; "2.png"]%string (7 # 2) 1)
                (planned_durations ["1.png"; "2.png"]%string (7 # 2) 1)
                1 1 (mkAudio "song.mp3" 10))
  = [Fadein 1 [0; 0; 0]%Z; Fadeout 1 [0; 0; 0]%Z]
  /\ clip_audio
       (final_clip (planned_clips ["1.png"; "2.png"]%string (7 # 2) 1)
                   (planned_durations ["1.png"; "2.png"]%string (7 # 2) 1)
                   1 1 (mkAudio "song.mp3" 10))
     = Some (mkAudio "song.mp3" 10)
  /\ clip_fps
       (final_clip (planned_clips ["1.png"; "2.png"]%string (7 # 2) 1)
                   (planned_durations ["1.png"; "2.png"]%string (7 # 2) 1)
                   1 1 (mkAudio "song.mp3" 10))
     = Some 24%Z
  /\ clip_start
       (final_clip (planned_clips ["1.png"; "2.png"]%string (7 # 2) 1)
                   (planned_durations ["1.png"; "2.png"]%string (7 # 2) 1)
                   1 1 (mkAudio "song.mp3" 10))
     = 0
  /\ exists d,
      clip_duration
        (final_clip (planned_clips ["1.png"; "2.png"]%string (7 # 2) 1)
                    (planned_durations ["1.png"; "2.png"]%string (7 # 2) 1)
                    1 1 (mkAudio "song.mp3" 10))
      = Some d
      /\ clip_end
           (final_clip (planned_clips ["1.png"; "2.png"]%string (7 # 2) 1)
                       (planned_durations ["1.png"; "2.png"]%string
                                          (7 # 2) 1)
                       1 1 (mkAudio "song.mp3" 10))
         = Some d
      /\ 10 - d == 1 + 1.
Proof.
  apply (@encoded_clip_effects demo_backend ["1.png"; "2.png"]%string
           "song.mp3" 1 1 1 10).
  - reflexivity.
  - reflexivity.
Defined.

(** ** The backend calls of a run *)

Lemma planned_run_inv B image_paths audio_path t fi fo (a s : Q) :
  probe_audio B audio_path = inr a ->
  planner_outcome_of
    (trace (create_video_from_images B image_paths audio_path t fi fo))
  = Some (Planned s) ->
  Qle_bool (effective_video_duration a fi fo) 0 = false
  /\ image_paths <> []
  /\ s = (effective_video_duration a fi fo
          - total_transition_time (Z.of_nat (List.length image_paths)) t)
         / inject_Z (Z.of_nat (List.length image_paths))
  /\ Qle_bool s 0 = false.
Proof.
  intros Ha Hplan.
  rewrite (@planner_outcome_run B image_paths audio_path t fi fo a Ha)
    in Hplan.
  destruct (Qle_bool _ 0) eqn:He in Hplan; [discriminate|].
  destruct (_ =? 0)%Z eqn:Hn in Hplan; [discriminate|].
  destruct (Qle_bool _ 0) eqn:Hs in Hplan; [discriminate|].
  injection Hplan as <-. repeat split; try assumption.
  intros E. rewrite E in Hn. discriminate.
Qed.

Lemma image_reads_app tr1 tr2 :
  image_reads (tr1 ++ tr2) = image_reads tr1 ++ image_reads tr2.
Proof.
  induction tr1 as [|ev tr1 IH]; [reflexivity|].
  destruct ev; cbn [app image_reads]; rewrite IH; reflexivity.
Qed.

Lemma composite_calls_app tr1 tr2 :
  composite_calls (tr1 ++ tr2)
  = (composite_calls tr1 + composite_calls tr2)%nat.
Proof.
  induction tr1 as [|ev tr1 IH]; [reflexivity|].
  destruct ev; cbn [app composite_calls]; rewrite IH; reflexivity.
Qed.

Lemma image_reads_planned paths s t :
  image_reads (planned_events paths s t) = reads_of paths.
Proof.
  induction paths as [|p rest IH]; [reflexivity|].
  cbn [planned_events image_reads]. rewrite image_reads_app, IH.
  destruct rest as [|q rest]; reflexivity.
Qed.

Lemma composite_calls_planned paths s t :
  composite_calls (planned_events paths s t) = (List.length paths - 1)%nat.
Proof.
  induction paths as [|p rest IH]; [reflexivity|].
  cbn [planned_events composite_calls]. rewrite composite_calls_app, IH.
  destruct rest as [|q rest]; cbn [composite_calls List.length]; lia.
Qed.

Lemma reads_of_length paths :
  List.length (reads_of paths) = (2 * List.length paths - 1)%nat.
Proof.
  destruct paths as [|p rest]; [reflexivity|].
  cbn [reads_of List.length].
  assert (E : List.length (flat_map (fun q : string => [q; q]) rest)
              = (2 * List.length rest)%nat).
  { induction rest as [|q rest IH]; [reflexivity|].
    cbn [flat_map app List.length]. rewrite IH. lia. }
  rewrite E. lia.
Qed.

(** X5.  When the planner succeeds and every image can be read, the run opens
    the image files in this order: the first image once, then every other
    image twice in a row.  That is [2 * N - 1] image clips for [N] images,
    and [N - 1] composites. *)
Theorem image_files_opened
  B image_paths audio_path transition_duration fade_in_duration
  fade_out_duration (a s : Q) :
  let run := create_video_from_images B image_paths audio_path
               transition_duration fade_in_duration fade_out_duration in
  probe_audio B audio_path = inr a ->
  planner_outcome_of (trace run) = Some (Planned s) ->
  Forall (readable B) image_paths ->
  image_reads (trace run) = reads_of image_paths
  /\ List.length (image_reads (trace run))
     = (2 * List.length image_paths - 1)%nat
  /\ composite_calls (trace run) = (List.length image_paths - 1)%nat.
Proof.
  intros run Ha Hplan Hr. subst run.
  destruct (@planned_run_inv B image_paths audio_path transition_duration
              fade_in_duration fade_out_duration a s Ha Hplan)
    as (He & Hne & -> & Hs).
  rewrite (@run_built B image_paths audio_path transition_duration
             fade_in_duration fade_out_duration a Ha He Hne Hs Hr).
  cbn [trace fst opening app image_reads composite_calls].
  rewrite image_reads_app, composite_calls_app.
  rewrite image_reads_planned, composite_calls_planned.
  cbn [image_reads composite_calls].
  destruct (encode _ _ _); cbn [image_reads composite_calls];
    rewrite app_nil_r, Nat.add_0_r, reads_of_length; auto.
Qed.

Lemma image_files_opened_witness :
  image_reads
    (trace (create_video_from_images demo_backend
              ["1.png"; "2.png"; "3.png"]%string "song.mp3" 1 1 1))
  = reads_of ["1.png"; "2.png"; "3.png"]%string
  /\ List.length
       (image_reads
          (trace (create_video_from_images demo_backend
                    ["1.png"; "2.png"; "3.png"]%string "song.mp3" 1 1 1)))
     = (2 * List.length ["1.png"; "2.png"; "3.png"]%string - 1)%nat
  /\ composite_calls
       (trace (create_video_from_images demo_backend
                 ["1.png"; "2.png"; "3.png"]%string "song.mp3" 1 1 1))
     = (List.length ["1.png"; "2.png"; "3.png"]%string - 1)%nat.
Proof.
  apply (@image_files_opened demo_backend
           ["1.png"; "2.png"; "3.png"]%string "song.mp3" 1 1 1 10 (6 # 3)).
  - reflexivity.
  - reflexivity.
  - repeat constructor.
Defined.

(** ** The first image that cannot be read *)

Section FirstUnreadable.

Variable B : Backend.
Variables s t : Q.
Variable p : string.
Variable e : exn.
Hypothesis Hp : probe_image B p = Some e.

Lemma loop_first_unreadable pre : forall done acc post,
  Forall (readable B) pre ->
  exists tr,
    for_each (add_clip B (done ++ pre ++ p :: post)
                (Z.of_nat (List.length (done ++ pre ++ p :: post))) s t)
             (combine (seq (List.length done)
                           (List.length (pre ++ p :: post)))
                      (pre ++ p :: post)) acc
    = (tr, inl e)
    /\ Forall build_event tr
    /\ image_reads tr = reads_of pre ++ [p].
Proof.
  induction pre as [|q pre IH]; intros done acc post Hr.
  - exists [Mp_ImageClip p]. cbn [app List.length seq combine for_each].
    split; [|split; [repeat constructor | reflexivity]].
    unfold add_clip, ImageClip. rewrite Hp. reflexivity.
  - inversion Hr as [|? ? Hq Hpre]; subst.
    cbn [app List.length seq combine for_each].
    destruct pre as [|q' pre].
    + exists [Mp_ImageClip q; Mp_ImageClip p].
      split; [|split; [repeat constructor | reflexivity]].
      cbn [app]. unfold add_clip. rewrite lt_last_index, getitem_next.
      unfold ImageClip. rewrite Hq. cbn [emit bind ret app].
      rewrite Hp. reflexivity.
    + inversion Hpre as [|? ? Hq' _]; subst.
      cbn [app]. rewrite add_clip_dissolve by assumption.
      destruct (IH (done ++ [q]) (acc ++ [dissolve_clip q q' s t]) post Hpre)
        as (tr & Hrun & Htr & Hreads).
      rewrite <- app_assoc, last_length in Hrun. cbn [app] in Hrun.
      exists ([Mp_ImageClip q; Mp_ImageClip q';
               Mp_CompositeVideoClip
                 [exposure_clip q s; incoming_clip q' s t]] ++ tr).
      split; [|split].
      * unfold bind at 1. rewrite Hrun. reflexivity.
      * apply Forall_app. split; [repeat constructor | exact Htr].
      * rewrite image_reads_app, Hreads. reflexivity.
Qed.

End FirstUnreadable.

Lemma run_build_failed
  B image_paths audio_path t fi fo (a : Q) tr (e : exn) :
  let s := (effective_video_duration a fi fo
            - total_transition_time (Z.of_nat (List.length image_paths)) t)
           / inject_Z (Z.of_nat (List.length image_paths)) in
  probe_audio B audio_path = inr a ->
  Qle_bool (effective_video_duration a fi fo) 0 = false ->
  image_paths <> [] ->
  Qle_bool s 0 = false ->
  build_clips B image_paths (Z.of_nat (List.length image_paths)) s t
  = (tr, inl e) ->
  create_video_from_images B image_paths audio_path t fi fo
  = (opening audio_path a ++ St_write (MsgExposureTime s) :: tr
       ++ [St_error (MsgRenderError e)], inr None).
Proof.
  intros s Ha He Hne Hs Hb.
  unfold create_video_from_images, try_block, AudioFileClip.
  rewrite Ha.
  cbn [st_info st_write st_error st_success emit bind ret raise try_except
       app audio_duration].
  rewrite He. unfold single_image_duration, truediv.
  assert (Hn : (Z.of_nat (List.length image_paths) =? 0)%Z = false).
  { apply Z.eqb_neq. destruct image_paths; [congruence|].
    cbn [List.length]. lia. }
  rewrite Hn. cbn [bind ret app]. fold s. rewrite Hs, Hb. reflexivity.
Qed.

(** X6.  When the planner succeeds and some image cannot be read, the run
    stops at the first such image in processing order: it returns [None],
    its last report is a render error carrying the exception of that
    image, the image files opened are those before it (as in a full run)
    and the image itself, and nothing is concatenated or encoded. *)
Theorem first_unreadable_image_stops_run
  B image_paths audio_path transition_duration fade_in_duration
  fade_out_duration (a s : Q) (pre post : list string) (p : string)
  (e : exn) :
  let run := create_video_from_images B image_paths audio_path
               transition_duration fade_in_duration fade_out_duration in
  probe_audio B audio_path = inr a ->
  planner_outcome_of (trace run) = Some (Planned s) ->
  image_paths = pre ++ p :: post ->
  Forall (readable B) pre ->
  probe_image B p = Some e ->
  outcome run = inr None
  /\ last (trace run) (St_info MsgStarting) = St_error (MsgRenderError e)
  /\ image_reads (trace run) = reads_of pre ++ [p]
  /\ clips_of_run (trace run) = None
  /\ encoded_clip (trace run) = None.
Proof.
  intros run Ha Hplan Hsplit Hpre Hp. subst run.
  destruct (@planned_run_inv B image_paths audio_path transition_duration
              fade_in_duration fade_out_duration a s Ha Hplan)
    as (He & Hne & Hsv & Hs).
  destruct (@loop_first_unreadable B s transition_duration p e Hp pre
              nil nil post Hpre) as (tr & Hloop & Htr & Hreads).
  cbn [app List.length] in Hloop. rewrite <- Hsplit in Hloop.
  assert (Hb : build_clips B image_paths
                 (Z.of_nat (List.length image_paths)) s transition_duration
               = (tr, inl e)).
  { unfold build_clips, enumerate. exact Hloop. }
  rewrite Hsv in Hb, Hs.
  rewrite (@run_build_failed B image_paths audio_path transition_duration
             fade_in_duration fade_out_duration a tr e Ha He Hne Hs Hb).
  destruct (build_events_no_clips Htr) as [Hnc Hne'].
  cbn [outcome snd trace fst opening app image_reads clips_of_run
       encoded_clip].
  split; [reflexivity|]. split; [|split; [|split]].
  - change (St_info MsgStarting :: Mp_AudioFileClip audio_path
              :: St_write (MsgAudioLength a)
              :: St_write (MsgExposureTime
                             ((effective_video_duration a fade_in_duration
                                 fade_out_duration
                               - total_transition_time
                                   (Z.of_nat (List.length image_paths))
                                   transition_duration)
                              / inject_Z (Z.of_nat
                                            (List.length image_paths))))
              :: tr ++ [St_error (MsgRenderError e)])
      with ((St_info MsgStarting :: Mp_AudioFileClip audio_path
               :: St_write (MsgAudioLength a)
               :: St_write (MsgExposureTime
                              ((effective_video_duration a fade_in_duration
                                  fade_out_duration
                                - total_transition_time
                                    (Z.of_nat (List.length image_paths))
                                    transition_duration)
                               / inject_Z (Z.of_nat
                                             (List.length image_paths))))
               :: tr) ++ [St_error (MsgRenderError e)]).
    apply last_last.
  - rewrite image_reads_app, Hreads. cbn [image_reads].
    rewrite app_nil_r. reflexivity.
  - rewrite clips_of_run_app, Hnc. reflexivity.
  - rewrite encoded_clip_app, Hne'. reflexivity.
Qed.

Lemma first_unreadable_image_stops_run_witness :
  outcome (create_video_from_images broken_image_backend
             ["1.png"; "2.png"; "3.png"]%string "song.mp3" 1 1 1)
  = inr None
  /\ last (trace (create_video_from_images broken_image_backend
                    ["1.png"; "2.png"; "3.png"]%string "song.mp3" 1 1 1))
          (St_info MsgStarting)
     = St_error (MsgRenderError (BackendError "cannot identify image file"))
  /\ image_reads
       (trace (create_video_from_images broken_image_backend
                 ["1.png"; "2.png"; "3.png"]%string "song.mp3" 1 1 1))
     = reads_of ["1.png"%string] ++ ["2.png"%string]
  /\ clips_of_run
       (trace (create_video_from_images broken_image_backend
                 ["1.png"; "2.png"; "3.png"]%string "song.mp3" 1 1 1))
     = None
  /\ encoded_clip
       (trace (create_video_from_images broken_image_backend
                 ["1.png"; "2.png"; "3.png"]%string "song.mp3" 1 1 1))
     = None.
Proof.
  apply (@first_unreadable_image_stops_run broken_image_backend
           ["1.png"; "2.png"; "3.png"]%string "song.mp3" 1 1 1 10 (6 # 3)
           ["1.png"%string] ["3.png"%string] "2.png"
           (BackendError "cannot identify image file")).
  - reflexivity.
  - reflexivity.
  - reflexivity.
  - repeat constructor.
  - reflexivity.
Defined.

(** ** The timeline of the concatenation *)

Lemma all_known_cons_inv {A} (o : option A) (l : list (option A)) ys :
  all_known (o :: l) = Some ys ->
  exists y ys', o = Some y /\ all_known l = Some ys' /\ ys = y :: ys'.
Proof.
  destruct o as [y|]; cbn [all_known]; [|discriminate].
  destruct (all_known l) as [ys'|]; [|discriminate].
  intros H. injection H as <-. eauto.
Qed.

Lemma all_known_length {A} (l : list (option A)) : forall ys,
  all_known l = Some ys -> List.length ys = List.length l.
Proof.
  induction l as [|o l IH]; intros ys H.
  - injection H as <-. reflexivity.
  - apply all_known_cons_inv in H. destruct H as (y & ys' & -> & H & ->).
    cbn [List.length]. rewrite (IH _ H). reflexivity.
Qed.

Lemma firstn_succ_nth {A} (l : list A) : forall k d,
  nth_error l k = Some d -> firstn (S k) l = firstn k l ++ [d].
Proof.
  induction l as [|x l IH]; intros [|k] d H; try discriminate.
  - cbn in H. injection H as ->. reflexivity.
  - cbn [nth_error] in H.
    rewrite (firstn_cons (S k)), (firstn_cons k), (IH _ _ H). reflexivity.
Qed.

(** Where [place] puts clip [k]: behind the durations of the clips before
    it. *)
Lemma place_nth clips : forall ds t k c,
  all_known (map clip_duration clips) = Some ds ->
  nth_error (place t clips ds) k = Some c ->
  exists b d,
    nth_error clips k = Some b /\ nth_error ds k = Some d
    /\ clip_duration b = Some d
    /\ c = set_start b (fold_left Qplus (firstn k ds) t).
Proof.
  induction clips as [|b0 clips IH]; intros ds t k c Hk Hn.
  - destruct k; discriminate.
  - cbn [map] in Hk. apply all_known_cons_inv in Hk.
    destruct Hk as (d0 & ds' & Hd0 & Hk & ->).
    cbn [place] in Hn. destruct k as [|k].
    + cbn in Hn. injection Hn as <-.
      exists b0, d0. repeat split; try reflexivity. exact Hd0.
    + cbn [nth_error] in Hn.
      destruct (IH ds' (t + d0) k c Hk Hn) as (b & d & Hb & Hd & Hbd & ->).
      exists b, d. repeat split; assumption || reflexivity.
Qed.

Lemma place_length clips : forall ds t,
  all_known (map clip_duration clips) = Some ds ->
  List.length (place t clips ds) = List.length clips.
Proof.
  induction clips as [|b0 clips IH]; intros ds t Hk; [reflexivity|].
  cbn [map] in Hk. apply all_known_cons_inv in Hk.
  destruct Hk as (d0 & ds' & _ & Hk & ->).
  cbn [place List.length]. rewrite (IH _ _ Hk). reflexivity.
Qed.

Lemma set_start_known b d T :
  clip_duration b = Some d ->
  clip_start (set_start b T) = T
  /\ clip_end (set_start b T) = Some (T + d)
  /\ clip_duration (set_start b T) = Some d
  /\ clip_source (set_start b T) = clip_source b.
Proof.
  intros H. unfold set_start. rewrite H. repeat split.
Qed.

Lemma abutting_clips_disjoint (c c' : VideoClip) (x : Q) :
  clip_end c = Some (clip_start c') ->
  is_playing c x && is_playing c' x = false.
Proof.
  intros H. unfold is_playing. rewrite H.
  destruct (Qle_bool (clip_start c) x), (Qle_bool (clip_start c') x);
    cbn; try reflexivity.
Qed.

(** X7.  Whenever a run reaches the encoder, the clip it hands over shows the
    built clips one after the other, unchanged in content and duration:
    there are as many as images, the first starts at 0, each next one
    starts at the very instant the previous one ends, so that two
    neighbours are never playing together, and the last one ends when the
    whole clip ends. *)
Theorem clips_laid_end_to_end
  B image_paths audio_path transition_duration fade_in_duration
  fade_out_duration (a : Q) (final : VideoClip) :
  let run := create_video_from_images B image_paths audio_path
               transition_duration fade_in_duration fade_out_duration in
  probe_audio B audio_path = inr a ->
  encoded_clip (trace run) = Some final ->
  exists clips,
    clips_of_run (trace run) = Some clips
    /\ List.length (layers_of final) = List.length image_paths
    /\ (forall c, nth_error (layers_of final) 0 = Some c -> clip_start c = 0)
    /\ (forall k c c',
          nth_error (layers_of final) k = Some c ->
          nth_error (layers_of final) (S k) = Some c' ->
          clip_end c = Some (clip_start c')
          /\ forall x, is_playing c x && is_playing c' x = false)
    /\ (forall c,
          nth_error (layers_of final) (List.length image_paths - 1) = Some c ->
          clip_end c = clip_end final)
    /\ (forall k c,
          nth_error (layers_of final) k = Some c ->
          exists b,
            nth_error clips k = Some b
            /\ clip_source c = clip_source b
            /\ clip_duration c = clip_duration b).
Proof.
  intros run Ha Hc. subst run.
  destruct (@run_encoded_inv B image_paths audio_path transition_duration
              fade_in_duration fade_out_duration a final Ha Hc)
    as (Hne & Hr & Hfinal).
  set (s := _ / _) in Hfinal.
  set (clips := planned_clips image_paths s transition_duration) in *.
  set (ds := planned_durations image_paths s transition_duration) in *.
  assert (Hk : all_known (map clip_duration clips) = Some ds).
  { unfold clips, ds.
    rewrite planned_clips_durations. apply all_known_map_Some. }
  assert (Hlayers : layers_of final = place 0 clips ds).
  { rewrite Hfinal. reflexivity. }
  assert (Hend : clip_end final = Some (fold_left Qplus ds 0)).
  { rewrite Hfinal. reflexivity. }
  assert (Hlen : List.length clips = List.length image_paths).
  { apply planned_clips_length. }
  exists clips. rewrite Hlayers. split; [|split; [|split; [|split; [|split]]]].
  - destruct (Qle_bool (effective_video_duration a fade_in_duration
                                                 fade_out_duration) 0) eqn:He.
    { rewrite (@run_audio_too_short B image_paths audio_path
                 transition_duration fade_in_duration fade_out_duration
                 a Ha He) in Hc. discriminate. }
    destruct (Qle_bool s 0) eqn:Hs.
    { rewrite (@run_too_many_images B image_paths audio_path
                 transition_duration fade_in_duration fade_out_duration
                 a Ha He Hne Hs) in Hc. discriminate. }
    exact (proj1 (@run_clips B image_paths audio_path transition_duration
                    fade_in_duration fade_out_duration a Ha He Hne Hs Hr)).
  - rewrite (@place_length clips ds 0 Hk). exact Hlen.
  - intros c H0.
    destruct (@place_nth clips ds 0 0%nat c Hk H0)
      as (b & d & _ & _ & Hbd & ->).
    apply (@set_start_known b d _ Hbd).
  - intros k c c' H1 H2.
    destruct (@place_nth clips ds 0 k c Hk H1) as (b & d & _ & Hd & Hbd & ->).
    destruct (@place_nth clips ds 0 (S k) c' Hk H2)
      as (b' & d' & _ & _ & Hbd' & ->).
    assert (E : clip_end (set_start b (fold_left Qplus (firstn k ds) 0))
                = Some (clip_start
                          (set_start b'
                             (fold_left Qplus (firstn (S k) ds) 0)))).
    { destruct (@set_start_known b d (fold_left Qplus (firstn k ds) 0) Hbd)
        as (_ & -> & _).
      destruct (@set_start_known b' d'
                  (fold_left Qplus (firstn (S k) ds) 0) Hbd')
        as (-> & _).
      rewrite (@firstn_succ_nth _ ds k d Hd), fold_left_app. reflexivity. }
    split; [exact E|]. intros x. apply abutting_clips_disjoint. exact E.
  - intros c Hl.
    destruct (@place_nth clips ds 0 _ c Hk Hl) as (b & d & _ & Hd & Hbd & ->).
    destruct (@set_start_known b d
                (fold_left Qplus
                   (firstn (List.length image_paths - 1) ds) 0) Hbd)
      as (_ & -> & _).
    rewrite Hend. f_equal.
    assert (Hds : List.length ds = List.length image_paths).
    { rewrite (@all_known_length _ _ ds Hk), length_map. exact Hlen. }
    assert (Hall : firstn (S (List.length image_paths - 1)) ds = ds).
    { apply firstn_all2. rewrite Hds.
      destruct image_paths; [congruence | cbn [List.length]; lia]. }
    rewrite <- Hall at 2.
    rewrite (@firstn_succ_nth _ ds _ d Hd), fold_left_app. reflexivity.
  - intros k c Hn.
    destruct (@place_nth clips ds 0 k c Hk Hn) as (b & d & Hb & _ & Hbd & ->).
    exists b. split; [exact Hb|].
    destruct (@set_start_known b d (fold_left Qplus (firstn k ds) 0) Hbd)
      as (_ & _ & -> & ->).
    split; [reflexivity | symmetry; exact Hbd].
Qed.

Lemma clips_laid_end_to_end_witness :
  exists clips,
    clips_of_run
      (trace (create_video_from_images demo_backend
                ["1.png"; "2.png"]%string "song.mp3" 1 1 1)) = Some clips
    /\ List.length (layers_of demo_final_clip)
       = List.length ["1.png"; "2.png"]%string
    /\ (forall c, nth_error (layers_of demo_final_clip) 0 = Some c ->
                  clip_start c = 0)
    /\ (forall k c c',
          nth_error (layers_of demo_final_clip) k = Some c ->
          nth_error (layers_of demo_final_clip) (S k) = Some c' ->
          clip_end c = Some (clip_start c')
          /\ forall x, is_playing c x && is_playing c' x = false)
    /\ (forall c,
          nth_error (layers_of demo_final_clip)
                    (List.length ["1.png"; "2.png"]%string - 1) = Some c ->
          clip_end c = clip_end demo_final_clip)
    /\ (forall k c,
          nth_error (layers_of demo_final_clip) k = Some c ->
          exists b,
            nth_error clips k = Some b
            /\ clip_source c = clip_source b
            /\ clip_duration c = clip_duration b).
Proof.
  apply (@clips_laid_end_to_end demo_backend ["1.png"; "2.png"]%string
           "song.mp3" 1 1 1 10 demo_final_clip).
  - reflexivity.
  - reflexivity.
Defined.

(** ** More on the planner *)

Lemma planner_outcome_audio_error B image_paths audio_path t fi fo e :
  probe_audio B audio_path = inl e ->
  planner_outcome_of
    (trace (create_video_from_images B image_paths audio_path t fi fo))
  = None.
Proof.
  intros H. rewrite (@run_audio_error B image_paths audio_path t fi fo e H).
  reflexivity.
Qed.

(** X8.  The planner looks at the number of images only: two calls on lists
    of the same length, with the same effect durations and audio files
    that open alike, take the same decision, whatever the images are and
    whether or not they can be read. *)
Theorem planner_ignores_images
  B1 B2 image_paths1 image_paths2 audio_path1 audio_path2
  transition_duration fade_in_duration fade_out_duration :
  probe_audio B1 audio_path1 = probe_audio B2 audio_path2 ->
  List.length image_paths1 = List.length image_paths2 ->
  planner_outcome_of
    (trace (create_video_from_images B1 image_paths1 audio_path1
              transition_duration fade_in_duration fade_out_duration))
  = planner_outcome_of
      (trace (create_video_from_images B2 image_paths2 audio_path2
                transition_duration fade_in_duration fade_out_duration)).
Proof.
  intros Hprobe Hlen.
  destruct (probe_audio B2 audio_path2) as [e|a] eqn:H2.
  - rewrite (@planner_outcome_audio_error B1 image_paths1 audio_path1
               transition_duration fade_in_duration fade_out_duration
               e Hprobe).
    rewrite (@planner_outcome_audio_error B2 image_paths2 audio_path2
               transition_duration fade_in_duration fade_out_duration
               e H2).
    reflexivity.
  - rewrite (@planner_outcome_run B1 image_paths1 audio_path1
               transition_duration fade_in_duration fade_out_duration
               a Hprobe).
    rewrite (@planner_outcome_run B2 image_paths2 audio_path2
               transition_duration fade_in_duration fade_out_duration
               a H2).
    rewrite Hlen. reflexivity.
Qed.

Lemma planner_ignores_images_witness :
  planner_outcome_of
    (trace (create_video_from_images demo_backend
              ["1.png"; "2.png"; "3.png"]%string "song.mp3" 1 1 1))
  = planner_outcome_of
      (trace (create_video_from_images broken_image_backend
                ["x.jpg"; "2.png"; "y.jpg"]%string "other.wav" 1 1 1)).
Proof.
  apply (@planner_ignores_images demo_backend broken_image_backend
           ["1.png"; "2.png"; "3.png"]%string
           ["x.jpg"; "2.png"; "y.jpg"]%string "song.mp3" "other.wav" 1 1 1).
  - reflexivity.
  - reflexivity.
Defined.

(** X9.  With a transition duration of zero (or below), no number of images
    is too large: on every non-empty list and every audio longer than the
    two fades the planner succeeds, and each image is shown for at least
    the effective duration divided by the number of images, exactly that
    when the transition duration is zero. *)
Theorem no_transition_no_limit
  B image_paths audio_path transition_duration fade_in_duration
  fade_out_duration (a : Q) :
  let run := create_video_from_images B image_paths audio_path
               transition_duration fade_in_duration fade_out_duration in
  let N := inject_Z (Z.of_nat (List.length image_paths)) in
  probe_audio B audio_path = inr a ->
  0 < a - fade_in_duration - fade_out_duration ->
  transition_duration <= 0 ->
  image_paths <> [] ->
  exists s,
    planner_outcome_of (trace run) = Some (Planned s)
    /\ 0 < s
    /\ (a - fade_in_duration - fade_out_duration) / N <= s
    /\ (transition_duration == 0 ->
        s == (a - fade_in_duration - fade_out_duration) / N).
Proof.
  intros run N Ha Heff Ht Hne. subst run.
  assert (HN : (1 <= Z.of_nat (List.length image_paths))%Z).
  { destruct image_paths; [congruence | cbn [List.length]; lia]. }
  pose proof (inject_Z_pos HN) as HNpos. fold N in HNpos.
  set (eff := effective_video_duration a fade_in_duration fade_out_duration).
  set (s := (eff - total_transition_time
                     (Z.of_nat (List.length image_paths))
                     transition_duration) / N).
  assert (Httt : total_transition_time (Z.of_nat (List.length image_paths))
                                       transition_duration <= 0).
  { unfold total_transition_time.
    assert (H0 : 0 <= inject_Z (Z.of_nat (List.length image_paths) - 1)).
    { change 0 with (inject_Z 0). rewrite <- Zle_Qle. lia. }
    pose proof (Qmult_le_compat_r _ _ _ Ht H0) as H.
    rewrite Qmult_0_l in H. rewrite Qmult_comm. exact H. }
  assert (Hle : eff / N <= s).
  { unfold s, Qdiv. apply Qmult_le_compat_r.
    - lra.
    - apply Qlt_le_weak, Qinv_lt_0_compat. exact HNpos. }
  assert (Hpos : 0 < s).
  { eapply Qlt_le_trans; [|exact Hle].
    apply Qlt_shift_div_l; [exact HNpos|]. rewrite Qmult_0_l. exact Heff. }
  exists s. split; [|split; [exact Hpos | split; [exact Hle|]]].
  - rewrite (@planner_outcome_run B image_paths audio_path
               transition_duration fade_in_duration fade_out_duration a Ha).
    fold eff.
    replace (Qle_bool eff 0) with false
      by (symmetry; apply Qle_bool_false; exact Heff).
    destruct (_ =? 0)%Z eqn:E; [apply Z.eqb_eq in E; lia|].
    fold N. fold s.
    replace (Qle_bool s 0) with false
      by (symmetry; apply Qle_bool_false; exact Hpos).
    reflexivity.
  - intros H0. unfold s, total_transition_time. rewrite H0.
    unfold eff, effective_video_duration.
    field. intros E. rewrite E in HNpos. discriminate.
Qed.

Lemma no_transition_no_limit_witness :
  exists s,
    planner_outcome_of
      (trace (create_video_from_images demo_backend
                ["1.png"; "2.png"]%string "song.mp3" 0 1 1))
    = Some (Planned s)
    /\ 0 < s
    /\ (10 - 1 - 1)
       / inject_Z (Z.of_nat (List.length ["1.png"; "2.png"]%string)) <= s
    /\ (0 == 0 ->
        s == (10 - 1 - 1)
             / inject_Z (Z.of_nat (List.length ["1.png"; "2.png"]%string))).
Proof.
  apply (@no_transition_no_limit demo_backend ["1.png"; "2.png"]%string
           "song.mp3" 0 1 1 10).
  - reflexivity.
  - reflexivity.
  - discriminate.
  - discriminate.
Defined.

(** X10.  A longer audio track never makes the planner fail: when it succeeds
    for a track, it succeeds for every track at least as long on the same
    number of images and with the same effect durations, and every image
    gains the added length divided by the number of images. *)
Theorem longer_audio_longer_exposure
  B1 B2 image_paths audio_path1 audio_path2 transition_duration
  fade_in_duration fade_out_duration (a1 a2 s1 : Q) :
  let N := inject_Z (Z.of_nat (List.length image_paths)) in
  probe_audio B1 audio_path1 = inr a1 ->
  probe_audio B2 audio_path2 = inr a2 ->
  a1 <= a2 ->
  planner_outcome_of
    (trace (create_video_from_images B1 image_paths audio_path1
              transition_duration fade_in_duration fade_out_duration))
  = Some (Planned s1) ->
  exists s2,
    planner_outcome_of
      (trace (create_video_from_images B2 image_paths audio_path2
                transition_duration fade_in_duration fade_out_duration))
    = Some (Planned s2)
    /\ s1 <= s2
    /\ s2 - s1 == (a2 - a1) / N.
Proof.
  intros N H1 H2 Hle Hplan.
  destruct (@planned_run_inv B1 image_paths audio_path1 transition_duration
              fade_in_duration fade_out_duration a1 s1 H1 Hplan)
    as (He & Hne & -> & Hs).
  assert (HN : (1 <= Z.of_nat (List.length image_paths))%Z).
  { destruct image_paths; [congruence | cbn [List.length]; lia]. }
  pose proof (inject_Z_pos HN) as HNpos. fold N in HNpos.
  assert (HNz : ~ N == 0).
  { intros E. rewrite E in HNpos. discriminate. }
  apply Qle_bool_false in He, Hs.
  set (ttt := total_transition_time (Z.of_nat (List.length image_paths))
                                    transition_duration) in *.
  fold N in Hs |- *.
  set (s1 := (effective_video_duration a1 fade_in_duration fade_out_duration
              - ttt) / N) in *.
  set (s2 := (effective_video_duration a2 fade_in_duration fade_out_duration
              - ttt) / N).
  assert (Hdiff : s2 - s1 == (a2 - a1) / N).
  { unfold s1, s2, effective_video_duration. field. exact HNz. }
  assert (Hgain : 0 <= (a2 - a1) / N).
  { apply Qle_shift_div_l; [exact HNpos|]. lra. }
  assert (H12 : s1 <= s2) by lra.
  exists s2. split; [|split; assumption].
  rewrite (@planner_outcome_run B2 image_paths audio_path2
             transition_duration fade_in_duration fade_out_duration a2 H2).
  replace (Qle_bool (effective_video_duration a2 fade_in_duration
                                              fade_out_duration) 0)
    with false.
  2:{ symmetry. apply Qle_bool_false.
      unfold effective_video_duration in *. lra. }
  destruct (_ =? 0)%Z eqn:E; [apply Z.eqb_eq in E; lia|].
  fold ttt. fold N. fold s2.
  replace (Qle_bool s2 0) with false
    by (symmetry; apply Qle_bool_false; lra).
  reflexivity.
Qed.

Lemma longer_audio_longer_exposure_witness :
  exists s2,
    planner_outcome_of
      (trace (create_video_from_images
                (mkBackend (fun _ => inr 16) (fun _ => None)
                           (fun _ _ => None) "0f8b" "/tmp")
                ["1.png"; "2.png"; "3.png"]%string "long.mp3" 1 1 1))
    = Some (Planned s2)
    /\ (6 # 3) <= s2
    /\ s2 - (6 # 3)
       == (16 - 10)
          / inject_Z (Z.of_nat
                        (List.length ["1.png"; "2.png"; "3.png"]%string)).
Proof.
  apply (@longer_audio_longer_exposure demo_backend
           (mkBackend (fun _ => inr 16) (fun _ => None)
                      (fun _ _ => None) "0f8b" "/tmp")
           ["1.png"; "2.png"; "3.png"]%string "song.mp3" "long.mp3"
           1 1 1 10 16 (6 # 3)).
  - reflexivity.
  - reflexivity.
  - discriminate.
  - reflexivity.
Defined.

(** ** More on the order of the images *)

Lemma list_sort_sorted_id (l : list string) :
  Sorted string_le l -> list_sort l = l.
Proof.
  intros Hs.
  assert (Htrans : Relations_1.Transitive string_le).
  { intros x y z. apply string_le_trans. }
  apply sorted_perm_unique.
  - apply Sorted_StronglySorted; [exact Htrans | apply list_sort_sorted].
  - apply Sorted_StronglySorted; [exact Htrans | exact Hs].
  - apply list_sort_perm.
Qed.

(** X11.  Uploads whose file names are already in ascending order are processed
    in upload order: sorting changes nothing. *)
Theorem sorted_names_keep_upload_order
  tmpdir (uploaded_images : list UploadedFile) :
  Sorted string_le (map name uploaded_images) ->
  Forall (fun f => starts_with_sep (name f) = false) uploaded_images ->
  processing_order tmpdir uploaded_images
  = staged_paths tmpdir uploaded_images.
Proof.
  intros Hs Hrel. unfold processing_order.
  rewrite (staged_paths_relative tmpdir Hrel).
  rewrite list_sort_append, (list_sort_sorted_id Hs). reflexivity.
Qed.

Lemma sorted_names_keep_upload_order_witness :
  processing_order "/tmp/up"
    [mkUpload "01.png" []; mkUpload "02.png" []; mkUpload "10.png" []]
  = staged_paths "/tmp/up"
      [mkUpload "01.png" []; mkUpload "02.png" []; mkUpload "10.png" []].
Proof.
  apply (@sorted_names_keep_upload_order "/tmp/up"
           [mkUpload "01.png" []; mkUpload "02.png" [];
            mkUpload "10.png" []]).
  - repeat constructor.
  - repeat constructor.
Defined.

(** ** The handler and the planner together *)

Lemma handler_video_shown
  B tmpdir (uploaded_images : list UploadedFile) (audio : UploadedFile) p :
  uploaded_images <> [] ->
  In (St_video p)
     (trace (button_handler B tmpdir uploaded_images (Some audio)))
  <-> outcome (create_video_from_images B
                 (processing_order tmpdir uploaded_images)
                 (os_path_join tmpdir (name audio)) 1 1 1)
      = inr (Some p).
Proof.
  intros Hne. rewrite (button_handler_trace B tmpdir audio Hne).
  pose proof (run_events_plain B (processing_order tmpdir uploaded_images)
                (os_path_join tmpdir (name audio)) 1 1 1) as Hplain.
  rewrite Forall_forall in Hplain. cbn [trace fst]. split.
  - intros H. apply in_app_or in H. destruct H as [H | H].
    { apply staging_events_writes in H. destruct H as (q & d & E).
      discriminate. }
    apply in_app_or in H. destruct H as [H | H].
    { apply Hplain in H. destruct H. }
    destruct (outcome _) as [e | [q|]]; cbn in H; try tauto.
    destruct H as [E | [E | [E | []]]]; try discriminate.
    injection E as ->. reflexivity.
  - intros H. rewrite H. apply in_or_app. right. apply in_or_app. right.
    cbn. auto.
Qed.

(** X12.  Through the handler, which uses one second for the transition and
    for each fade: when the audio opens with duration [a], every staged
    image can be read and the encoder accepts the clip, a batch of [N]
    images gets its video shown if and only if [N + 1 < a]. *)
Theorem handler_default_budget
  B tmpdir (uploaded_images : list UploadedFile)
  (uploaded_audio : UploadedFile)
  (a : Q) :
  uploaded_images <> [] ->
  probe_audio B (os_path_join tmpdir (name uploaded_audio)) = inr a ->
  Forall (readable B) (staged_paths tmpdir uploaded_images) ->
  (forall c path, encode B c path = None) ->
  (exists p,
      In (St_video p)
         (trace (button_handler B tmpdir uploaded_images
                   (Some uploaded_audio))))
  <-> inject_Z (Z.of_nat (List.length uploaded_images)) + 1 < a.
Proof.
  intros Hne Ha Hr Henc.
  set (paths := processing_order tmpdir uploaded_images).
  assert (Hlen : List.length paths = List.length uploaded_images).
  { unfold paths, processing_order.
    rewrite (Permutation_length (list_sort_perm _)).
    unfold staged_paths. apply length_map. }
  assert (Hpaths : paths <> []).
  { intros E. rewrite E in Hlen. cbn in Hlen.
    destruct uploaded_images; [congruence | discriminate]. }
  assert (Hread : Forall (readable B) paths).
  { eapply Permutation_Forall; [|exact Hr].
    symmetry. apply list_sort_perm. }
  assert (HN : (1 <= Z.of_nat (List.length paths))%Z).
  { destruct paths; [congruence | cbn [List.length]; lia]. }
  assert (Hiff : 0 < (effective_video_duration a 1 1
                      - total_transition_time
                          (Z.of_nat (List.length paths)) 1)
                     / inject_Z (Z.of_nat (List.length paths))
                 <-> inject_Z (Z.of_nat (List.length uploaded_images)) + 1
                     < a).
  { rewrite (exposure_positive_iff _ _ HN), inject_Z_pred, Hlen.
    unfold effective_video_duration. split; intros H; lra. }
  split.
  - intros [p Hp].
    apply (handler_video_shown B tmpdir uploaded_audio p Hne) in Hp.
    destruct (@run_success_inv B paths
                (os_path_join tmpdir (name uploaded_audio)) 1 1 1 a Ha p Hp)
      as (_ & _ & Hs & _).
    apply Hiff. apply Qle_bool_false. exact Hs.
  - intros Hbudget. exists (output_path B).
    apply (handler_video_shown B tmpdir uploaded_audio (output_path B) Hne).
    fold paths.
    assert (Hs : Qle_bool
                   ((effective_video_duration a 1 1
                     - total_transition_time
                         (Z.of_nat (List.length paths)) 1)
                    / inject_Z (Z.of_nat (List.length paths))) 0 = false).
    { apply Qle_bool_false. apply Hiff. exact Hbudget. }
    assert (He : Qle_bool (effective_video_duration a 1 1) 0 = false).
    { apply Qle_bool_false. unfold effective_video_duration.
      assert (H1 : 1 <= inject_Z (Z.of_nat (List.length uploaded_images))).
      { change 1 with (inject_Z 1). rewrite <- Zle_Qle. lia. }
      lra. }
    rewrite (@run_built B paths (os_path_join tmpdir (name uploaded_audio))
               1 1 1 a Ha He Hpaths Hs Hread).
    cbn [outcome snd]. rewrite Henc. reflexivity.
Qed.

Lemma handler_default_budget_witness :
  (exists p,
      In (St_video p)
         (trace (button_handler demo_backend "/tmp/up"
                   [mkUpload "b.png" []; mkUpload "a.png" []]
                   (Some (mkUpload "song.mp3" [])))))
  <-> inject_Z (Z.of_nat
                  (List.length [mkUpload "b.png" []; mkUpload "a.png" []]))
      + 1 < 10.
Proof.
  apply (@handler_default_budget demo_backend "/tmp/up"
           [mkUpload "b.png" []; mkUpload "a.png" []]
           (mkUpload "song.mp3" []) 10).
  - discriminate.
  - reflexivity.
  - repeat constructor.
  - reflexivity.
Defined.

(** ** The images of the segments *)

(** X13.  When the planner succeeds and every image can be read, the built
    clips show the images in the order of the list passed in: clip [k]
    holds image [k] from its start, the exposure segments show the images
    of the list one by one, each once, and the transition segments bring in
    the second to the last image, in order. *)
Theorem images_shown_in_order
  B image_paths audio_path transition_duration fade_in_duration
  fade_out_duration (a s : Q) :
  let run := create_video_from_images B image_paths audio_path
               transition_duration fade_in_duration fade_out_duration in
  probe_audio B audio_path = inr a ->
  planner_outcome_of (trace run) = Some (Planned s) ->
  Forall (readable B) image_paths ->
  exists clips,
    clips_of_run (trace run) = Some clips
    /\ map image_of (exposure_segments clips) = map Some image_paths
    /\ map image_of (transition_segments clips) = map Some (tl image_paths)
    /\ forall k c,
        nth_error clips k = Some c ->
        exists first,
          hd_error (layers_of c) = Some first
          /\ clip_start first = 0
          /\ image_of first = nth_error image_paths k.
Proof.
  intros run Ha Hplan Hr. subst run.
  destruct (@planned_run_inv B image_paths audio_path transition_duration
              fade_in_duration fade_out_duration a s Ha Hplan)
    as (He & Hne & Hsv & Hs).
  rewrite Hsv in Hs.
  destruct (@run_clips B image_paths audio_path transition_duration
              fade_in_duration fade_out_duration a Ha He Hne Hs Hr)
    as [Hclips _].
  rewrite <- Hsv in Hclips.
  exists (planned_clips image_paths s transition_duration).
  split; [exact Hclips|].
  rewrite exposure_segments_planned, transition_segments_planned.
  rewrite !map_map. split; [reflexivity|]. split; [reflexivity|].
  clear. induction image_paths as [|p rest IH]; intros k c Hk.
  - destruct k; discriminate.
  - destruct k as [|k].
    + cbn in Hk. injection Hk as <-.
      exists (exposure_clip p s). destruct rest; repeat split.
    + cbn [planned_clips nth_error] in Hk.
      destruct (IH _ _ Hk) as (first & Hf & H0 & Hi).
      exists first. repeat split; assumption.
Qed.

Lemma images_shown_in_order_witness :
  exists clips,
    clips_of_run
      (trace (create_video_from_images demo_backend
                ["1.png"; "2.png"; "3.png"]%string "song.mp3" 1 1 1))
    = Some clips
    /\ map image_of (exposure_segments clips)
       = map Some ["1.png"; "2.png"; "3.png"]%string
    /\ map image_of (transition_segments clips)
       = map Some (tl ["1.png"; "2.png"; "3.png"]%string)
    /\ forall k c,
        nth_error clips k = Some c ->
        exists first,
          hd_error (layers_of c) = Some first
          /\ clip_start first = 0
          /\ image_of first
             = nth_error ["1.png"; "2.png"; "3.png"]%string k.
Proof.
  apply (@images_shown_in_order demo_backend
           ["1.png"; "2.png"; "3.png"]%string "song.mp3" 1 1 1 10 (6 # 3)).
  - reflexivity.
  - reflexivity.
  - repeat constructor.
Defined.
